(** * LHEProcessor: registration of samples and observables, and the
      multi-sample merge of [analyse_lhe_samples]

    Shallow embedding of [src/lheprocessor/lheprocessor.py].

    The class keeps five attributes.  Its methods mutate them in place and
    may raise; a mutation made before a [raise] stays visible to a caller
    that catches the exception.  Methods are therefore computations in a
    state-and-exception monad whose state survives an exception.

    [extract_observables_from_lhe_file] lives in [lheprocessor.tools], outside
    the file embedded here.  It is a parameter of the development: a function
    from the file name and the two registries to either an exception or a
    pair (observation table, weight array). *)

From Stdlib Require Import String List Bool Arith PeanoNat Lia Permutation.
Import ListNotations.
Local Open Scope list_scope.

(** ** collections.OrderedDict with string keys

    An association list in insertion order.  [d[k] = v] on a key already
    present replaces the value and keeps the key's position; on a new key it
    appends at the end. *)
Module OrderedDict.

Definition t (V : Type) : Type := list (string * V).

Definition empty {V : Type} : t V := [].

Definition keys {V : Type} (d : t V) : list string := map fst d.

Definition len {V : Type} (d : t V) : nat := List.length d.

Fixpoint get {V : Type} (k : string) (d : t V) : option V :=
  match d with
  | [] => None
  | (k', v) :: d' => if String.eqb k k' then Some v else get k d'
  end.

Definition contains {V : Type} (k : string) (d : t V) : bool :=
  match get k d with Some _ => true | None => false end.

Fixpoint set {V : Type} (k : string) (v : V) (d : t V) : t V :=
  match d with
  | [] => [(k, v)]
  | (k', v') :: d' =>
      if String.eqb k k' then (k', v) :: d' else (k', v') :: set k v d'
  end.

(** A Python dict never holds a key twice. *)
Fixpoint mem (k : string) (l : list string) : bool :=
  match l with
  | [] => false
  | k' :: l' => String.eqb k k' || mem k l'
  end.

Fixpoint distinct (l : list string) : bool :=
  match l with
  | [] => true
  | k :: l' => negb (mem k l') && distinct l'
  end.

Definition wf {V : Type} (d : t V) : bool := distinct (keys d).

End OrderedDict.

(** ** The numpy arrays of the merge

    An observable column is a 1-D array.  The weights are a 2-D array; the
    source compares [shape[0]] under the message "Number of weights", and
    [np.hstack] joins 2-D arrays along axis 1, so axis 0 indexes the weight
    variations and axis 1 the events.  A 2-D array is kept as its list of
    axis-0 slices together with its axis-1 length (which an array with no
    slice still has). *)
Module Numpy.

Section Arrays.
Context {val : Type}.

Definition array1 : Type := list val.

Record array2 : Type := mk_array2 {
  axis1 : nat;
  slices : list (list val)
}.

Definition shape0 (a : array2) : nat := List.length (slices a).
Definition shape1 (a : array2) : nat := axis1 a.

(** Every slice has the axis-1 length. *)
Definition rectangular (a : array2) : bool :=
  forallb (fun r => List.length r =? axis1 a) (slices a).

(** [np.hstack([a, b])] on 1-D arrays: concatenation. *)
Definition hstack1 (a b : array1) : array1 := a ++ b.

Fixpoint zip_app (xs ys : list (list val)) : list (list val) :=
  match xs, ys with
  | x :: xs', y :: ys' => (x ++ y) :: zip_app xs' ys'
  | _, _ => []
  end.

(** [np.hstack([a, b])] on 2-D arrays: concatenation along axis 1; numpy
    raises a ValueError unless the axis-0 lengths agree. *)
Definition hstack2 (a b : array2) : option array2 :=
  if shape0 a =? shape0 b
  then Some {| axis1 := axis1 a + axis1 b;
               slices := zip_app (slices a) (slices b) |}
  else None.
End Arrays.

Arguments array1 : clear implicits.
Arguments array2 : clear implicits.

End Numpy.

Import Numpy.

(** ** Exceptions and log records *)

Inductive exn : Type :=
| FormatError (msg : string)
| IOError (msg : string)
| OtherError (msg : string)
  (** line 97: "Number of weights in different Delphes files incompatible:
      {} vs {}" *)
| ValueError_weights (merged this : nat)
  (** line 101: "Number of observations in different Delphes files
      incompatible: {} vs {}" *)
| ValueError_observations (merged this : nat)
  (** raised by np.hstack on arrays that do not fit *)
| ValueError_hstack
  (** line 108: "Observable {} not found in LHE sample!" *)
| AssertionError (key : string)
| KeyError (key : string)
  (** [None.shape] *)
| AttributeError
  (** [len(None)], iteration over [None] *)
| TypeError.

(** The two checks of the merge raise Python's ValueError; they are what the
    specification calls a ConsistencyError. *)
Definition is_ConsistencyError (e : exn) : bool :=
  match e with
  | ValueError_weights _ _ | ValueError_observations _ _ => true
  | _ => false
  end.

Definition is_AssertionError (e : exn) : bool :=
  match e with AssertionError _ => true | _ => false end.

(** The [logging.info] calls of the class. *)
Inductive log_record : Type :=
| Adding_LHE_sample (filename : string)
| Adding_required_observable (name definition : string)
| Adding_not_required_observable (name definition : string)
| Analysing_LHE_sample (lhe_file : string).

Section Processor.

Context {val : Type}.

(** The observation table of one sample or of the merge: observable name to
    column. *)
Definition table : Type := OrderedDict.t (array1 val).

Definition dataset : Type := (table * array2 val)%type.

(** ** The object *)
Record LHEProcessor : Type := mk_LHEProcessor {
  lhe_sample_filenames : list string;
  observables : OrderedDict.t string;
  observables_required : OrderedDict.t bool;
  observations : option table;
  weights : option (array2 val)
}.

Definition set_lhe_sample_filenames (l : list string) (p : LHEProcessor) :=
  mk_LHEProcessor l (observables p) (observables_required p)
                  (observations p) (weights p).

Definition set_observables (d : OrderedDict.t string) (p : LHEProcessor) :=
  mk_LHEProcessor (lhe_sample_filenames p) d (observables_required p)
                  (observations p) (weights p).

Definition set_observables_required (d : OrderedDict.t bool)
    (p : LHEProcessor) :=
  mk_LHEProcessor (lhe_sample_filenames p) (observables p) d
                  (observations p) (weights p).

Definition set_observations (o : option table) (p : LHEProcessor) :=
  mk_LHEProcessor (lhe_sample_filenames p) (observables p)
                  (observables_required p) o (weights p).

Definition set_weights (w : option (array2 val)) (p : LHEProcessor) :=
  mk_LHEProcessor (lhe_sample_filenames p) (observables p)
                  (observables_required p) (observations p) w.

(** ** The monad: the object and the log are the state; a raise keeps it *)
Definition world : Type := (LHEProcessor * list log_record)%type.

Definition M (A : Type) : Type := world -> (exn + A) * world.

Definition ret {A : Type} (a : A) : M A := fun w => (inr a, w).

Definition bind {A B : Type} (c : M A) (k : A -> M B) : M B :=
  fun w =>
    match c w with
    | (inl e, w') => (inl e, w')
    | (inr a, w') => k a w'
    end.

Definition raise {A : Type} (e : exn) : M A := fun w => (inl e, w).

Definition get_self : M LHEProcessor := fun w => (inr (fst w), w).

Definition modify_self (f : LHEProcessor -> LHEProcessor) : M unit :=
  fun w => (inr tt, (f (fst w), snd w)).

Definition logging_info (r : log_record) : M unit :=
  fun w => (inr tt, (fst w, snd w ++ [r])).

Definition lift {A : Type} (r : exn + A) : M A :=
  match r with
  | inl e => raise e
  | inr a => ret a
  end.

Definition getitem {V : Type} (d : OrderedDict.t V) (k : string) : M V :=
  match OrderedDict.get k d with
  | Some v => ret v
  | None => raise (KeyError k)
  end.

End Processor.

Arguments table : clear implicits.
Arguments dataset : clear implicits.
Arguments LHEProcessor : clear implicits.
Arguments world : clear implicits.
Arguments M : clear implicits.

Declare Scope py_scope.
Delimit Scope py_scope with py.
Notation "x <- c ;; k" := (bind c (fun x => k))
  (at level 61, c at next level, right associativity) : py_scope.
Notation "c ;; k" := (bind c (fun _ => k))
  (at level 61, right associativity) : py_scope.
Local Open Scope py_scope.

(** [for x in l: body x]; the list is the one the loop started on. *)
Fixpoint for_each {val A : Type} (l : list A) (body : A -> M val unit)
    : M val unit :=
  match l with
  | [] => ret tt
  | x :: l' => body x ;; for_each l' body
  end.

Section Methods.

Context {val : Type}.

(** [lheprocessor.tools.lhe_interface.extract_observables_from_lhe_file],
    called with the file name and the two registries. *)
Variable extract_observables_from_lhe_file :
  string -> OrderedDict.t string -> OrderedDict.t bool -> exn + dataset val.

(** Lines 17-31.  [general_init] only configures logging. *)
Definition __init__ (debug : bool) : LHEProcessor val :=
  {| lhe_sample_filenames := [];
     observables := OrderedDict.empty;
     observables_required := OrderedDict.empty;
     observations := None;
     weights := None |}.

(** Lines 33-37. *)
Definition add_lhe_sample (filename : string) : M val unit :=
  logging_info (Adding_LHE_sample filename) ;;
  modify_self (fun self =>
    set_lhe_sample_filenames (lhe_sample_filenames self ++ [filename]) self).

(** Lines 59-67. *)
Definition add_observable (name definition : string) (required : bool)
    : M val unit :=
  (if required
   then logging_info (Adding_required_observable name definition)
   else logging_info (Adding_not_required_observable name definition)) ;;
  modify_self (fun self =>
    set_observables (OrderedDict.set name definition (observables self))
                    self) ;;
  modify_self (fun self =>
    set_observables_required
      (OrderedDict.set name required (observables_required self)) self).

(** Lines 107-111, one iteration of [for key in self.observations]. *)
Definition merge_column (this_observations : table val) (key : string)
    : M val unit :=
  (if OrderedDict.contains key this_observations
   then ret tt
   else raise (AssertionError key)) ;;
  self <- get_self ;;
  match observations self with
  | None => raise TypeError
  | Some self_observations =>
      mine <- getitem self_observations key ;;
      theirs <- getitem this_observations key ;;
      modify_self (set_observations
        (Some (OrderedDict.set key (hstack1 mine theirs) self_observations)))
  end.

(** Lines 81-111, the body of [for lhe_file in self.lhe_sample_filenames]. *)
Definition analyse_lhe_sample (lhe_file : string) : M val unit :=
  logging_info (Analysing_LHE_sample lhe_file) ;;
  self <- get_self ;;
  this <- lift (extract_observables_from_lhe_file
                  lhe_file (observables self) (observables_required self)) ;;
  let this_observations := fst this in
  let this_weights := snd this in
  match observations self, weights self with
  | None, None =>
      modify_self (set_observations (Some this_observations)) ;;
      modify_self (set_weights (Some this_weights))
  | self_observations, self_weights =>
      match self_weights with
      | None => raise AttributeError
      | Some merged_weights =>
          if negb (shape0 merged_weights =? shape0 this_weights)
          then raise (ValueError_weights (shape0 merged_weights)
                                         (shape0 this_weights))
          else
            match self_observations with
            | None => raise TypeError
            | Some merged_observations =>
                if negb (OrderedDict.len merged_observations
                         =? OrderedDict.len this_observations)
                then raise (ValueError_observations
                              (OrderedDict.len merged_observations)
                              (OrderedDict.len this_observations))
                else
                  match hstack2 merged_weights this_weights with
                  | None => raise ValueError_hstack
                  | Some stacked =>
                      modify_self (set_weights (Some stacked)) ;;
                      for_each (OrderedDict.keys merged_observations)
                               (merge_column this_observations)
                  end
            end
      end
  end.

Definition analyse_loop (filenames : list string) : M val unit :=
  for_each filenames analyse_lhe_sample.

(** Lines 77-111. *)
Definition analyse_lhe_samples : M val unit :=
  self <- get_self ;;
  analyse_loop (lhe_sample_filenames self).

End Methods.

(** ** Callers

    A caller drives the object through its public methods, in any order, and
    may catch what a method raises and go on. *)
Inductive call : Type :=
| Call_add_lhe_sample (filename : string)
| Call_add_observable (name definition : string) (required : bool)
| Call_analyse_lhe_samples.

Section Callers.

Context {val : Type}.
Variable extract_observables_from_lhe_file :
  string -> OrderedDict.t string -> OrderedDict.t bool -> exn + dataset val.

Definition perform (c : call) : M val unit :=
  match c with
  | Call_add_lhe_sample filename => add_lhe_sample filename
  | Call_add_observable name definition required =>
      add_observable name definition required
  | Call_analyse_lhe_samples =>
      analyse_lhe_samples extract_observables_from_lhe_file
  end.

Fixpoint session (cs : list call) (w : world val) : world val :=
  match cs with
  | [] => w
  | c :: cs' => session cs' (snd (perform c w))
  end.

End Callers.

(** The [add_observable] calls among a caller's calls, in order. *)
Fixpoint registrations (cs : list call) : list (string * string * bool) :=
  match cs with
  | [] => []
  | Call_add_observable name definition required :: cs' =>
      (name, definition, required) :: registrations cs'
  | _ :: cs' => registrations cs'
  end.

(** ** Vocabulary of the claims *)
Section Vocabulary.

Context {val : Type}.
Variable extract_observables_from_lhe_file :
  string -> OrderedDict.t string -> OrderedDict.t bool -> exn + dataset val.

(** The column of observable [k], empty when the table has no such key. *)
Definition column (k : string) (o : table val) : array1 val :=
  match OrderedDict.get k o with Some c => c | None => [] end.

(** The weight-variation count of a weight array is its axis-0 length, the
    retained-event count its axis-1 length. *)
Definition weight_variations (w : array2 val) : nat := shape0 w.
Definition events (w : array2 val) : nat := shape1 w.

(** Shape invariant of a Dataset: every column is as long as the weight
    array has events. *)
Definition shape_invariant (d : dataset val) : bool :=
  forallb (fun kc => List.length (snd kc) =? events (snd d)) (fst d).

(** A table is a dict and a weight array is rectangular. *)
Definition well_formed (d : dataset val) : bool :=
  OrderedDict.wf (fst d) && rectangular (snd d).

(** What one sample file contributes under the registries of [self]. *)
Definition sample (self : LHEProcessor val) (lhe_file : string)
    : exn + dataset val :=
  extract_observables_from_lhe_file
    lhe_file (observables self) (observables_required self).

Definition sample_column (self : LHEProcessor val) (k : string)
    (lhe_file : string) : array1 val :=
  match sample self lhe_file with
  | inr d => column k (fst d)
  | inl _ => []
  end.

Definition sample_slice (self : LHEProcessor val) (i : nat)
    (lhe_file : string) : list val :=
  match sample self lhe_file with
  | inr d => nth i (slices (snd d)) []
  | inl _ => []
  end.

Definition sample_events (self : LHEProcessor val) (lhe_file : string)
    : nat :=
  match sample self lhe_file with
  | inr d => events (snd d)
  | inl _ => 0
  end.

(** Every sample that extracts is a well-formed Dataset. *)
Definition samples_well_formed (self : LHEProcessor val)
    (filenames : list string) : Prop :=
  forall f d, In f filenames -> sample self f = inr d ->
              well_formed d = true.

(** Every sample that extracts satisfies the shape invariant. *)
Definition samples_shape_invariant (self : LHEProcessor val)
    (filenames : list string) : Prop :=
  forall f d, In f filenames -> sample self f = inr d ->
              shape_invariant d = true.

(** A Dataset is sound: well formed, with the shape invariant. *)
Definition sound (d : dataset val) : Prop :=
  well_formed d = true /\ shape_invariant d = true.

(** The merged Dataset held by the object, if any. *)
Definition merged (self : LHEProcessor val) : option (dataset val) :=
  match observations self, weights self with
  | Some o, Some w => Some (o, w)
  | _, _ => None
  end.

(** No sample has been merged yet. *)
Definition nothing_merged (self : LHEProcessor val) : Prop :=
  observations self = None /\ weights self = None.

(** The state of the merge is sound: nothing merged, or a well-formed
    Dataset with the shape invariant. *)
Definition merged_sound (self : LHEProcessor val) : Prop :=
  match observations self, weights self with
  | None, None => True
  | Some o, Some w => sound (o, w)
  | _, _ => False
  end.

(** The first key of the merged table that the new sample lacks. *)
Definition first_missing (this_observations : table val)
    (merged_keys : list string) : option string :=
  find (fun k => negb (OrderedDict.contains k this_observations)) merged_keys.

(** The merged table once lines 107-111 have run over every key. *)
Definition stacked_columns (this_observations merged_observations : table val)
    : table val :=
  map (fun kc => (fst kc, hstack1 (snd kc) (column (fst kc) this_observations)))
      merged_observations.

(** The new sample passes both checks and has every merged key. *)
Definition compatible (d this : dataset val) : bool :=
  (shape0 (snd d) =? shape0 (snd this))
  && (OrderedDict.len (fst d) =? OrderedDict.len (fst this))
  && forallb (fun k => OrderedDict.contains k (fst this))
             (OrderedDict.keys (fst d)).

(** The merged Dataset after a compatible sample. *)
Definition stack (d this : dataset val) : dataset val :=
  (stacked_columns (fst this) (fst d),
   {| axis1 := axis1 (snd d) + axis1 (snd this);
      slices := zip_app (slices (snd d)) (slices (snd this)) |}).

(** The keys and the event count of what a sample file contributes. *)
Definition sample_keys (self : LHEProcessor val) (lhe_file : string)
    : list string :=
  match sample self lhe_file with
  | inr d => OrderedDict.keys (fst d)
  | inl _ => []
  end.

(** Reading of "the merged Dataset accumulated so far is discarded": after
    a run that raised, the object holds no observations and no weights. *)
Definition discards_on_abort (w : world val) : Prop :=
  forall e w',
    analyse_lhe_samples extract_observables_from_lhe_file w = (inl e, w') ->
    observations (fst w') = None /\ weights (fst w') = None.

(** Reading of "yields an empty Dataset": the run returns, and the object
    then holds a table with every registered observable bound to an empty
    column, and weights with no event. *)
Definition yields_empty_dataset (w : world val) : Prop :=
  exists w' o ws,
    analyse_lhe_samples extract_observables_from_lhe_file w = (inr tt, w') /\
    observations (fst w') = Some o /\ weights (fst w') = Some ws /\
    events ws = 0 /\
    forall name, In name (OrderedDict.keys (observables (fst w'))) ->
                 OrderedDict.get name o = Some [].

(** The object once it holds [d] as its merged Dataset. *)
Definition holding (d : dataset val) (self : LHEProcessor val)
    : LHEProcessor val :=
  set_weights (Some (snd d)) (set_observations (Some (fst d)) self).

(** The last registration of [name] in a list of [add_observable] calls. *)
Fixpoint last_registration (name : string)
    (regs : list (string * string * bool)) : option (string * bool) :=
  match regs with
  | [] => None
  | r :: regs' =>
      match last_registration name regs' with
      | Some x => Some x
      | None =>
          if String.eqb name (fst (fst r))
          then Some (snd (fst r), snd r)
          else None
      end
  end.

End Vocabulary.

(** ** A concrete run: two observables, five sample files *)
Module Example.

Local Open Scope string_scope.

Definition sample_a : dataset nat :=
  ([("E", [10; 11]); ("pt1", [1; 2])],
   {| axis1 := 2; slices := [[5; 6]] |}).

Definition sample_b : dataset nat :=
  ([("E", [20; 21; 22]); ("pt1", [3; 4; 5])],
   {| axis1 := 3; slices := [[7; 8; 9]] |}).

(** Two weight variations instead of one. *)
Definition sample_c : dataset nat :=
  ([("E", [30]); ("pt1", [6])],
   {| axis1 := 1; slices := [[1]; [2]] |}).

(** One observable instead of two. *)
Definition sample_d : dataset nat :=
  ([("E", [40])],
   {| axis1 := 1; slices := [[3]] |}).

(** Two observables, but [eta] in the place of [pt1]. *)
Definition sample_e : dataset nat :=
  ([("E", [50]); ("eta", [7])],
   {| axis1 := 1; slices := [[4]] |}).

Definition extract (lhe_file : string) (_ : OrderedDict.t string)
    (_ : OrderedDict.t bool) : exn + dataset nat :=
  if String.eqb lhe_file "a.lhe" then inr sample_a
  else if String.eqb lhe_file "b.lhe" then inr sample_b
  else if String.eqb lhe_file "c.lhe" then inr sample_c
  else if String.eqb lhe_file "d.lhe" then inr sample_d
  else if String.eqb lhe_file "e.lhe" then inr sample_e
  else if String.eqb lhe_file "broken.lhe"
       then inl (FormatError "unbalanced event markers")
  else inl (IOError lhe_file).

(** A fresh object with the two observables and the given files
    registered. *)
Definition registered (filenames : list string) : world nat :=
  session extract
    (Call_add_observable "E" "p[0].e" true
     :: Call_add_observable "pt1" "p[1].pt" false
     :: map Call_add_lhe_sample filenames)
    (__init__ false, []).

End Example.

(** The same files, and one more whose extraction raises an
    AssertionError of its own. *)
Module ExampleRaising.

Local Open Scope string_scope.

Definition extract (lhe_file : string) (obs : OrderedDict.t string)
    (req : OrderedDict.t bool) : exn + dataset nat :=
  if String.eqb lhe_file "assert.lhe"
  then inl (AssertionError "no particles")
  else Example.extract lhe_file obs req.

End ExampleRaising.

(** ** Vocabulary of the further properties *)

(** The file names of a caller's [add_lhe_sample] calls, in order. *)
Fixpoint registered_filenames (cs : list call) : list string :=
  match cs with
  | [] => []
  | Call_add_lhe_sample filename :: cs' =>
      filename :: registered_filenames cs'
  | _ :: cs' => registered_filenames cs'
  end.

(** The names of a caller's [add_observable] calls, in order. *)
Definition registered_names (cs : list call) : list string :=
  map (fun r => fst (fst r)) (registrations cs).

(** A list of names with every name kept at its first occurrence only. *)
Fixpoint first_occurrences (names : list string) : list string :=
  match names with
  | [] => []
  | n :: names' =>
      n :: filter (fun m => negb (String.eqb m n)) (first_occurrences names')
  end.

Section MoreVocabulary.

Context {val : Type}.

(** [observations] and [weights] are both [None] or both set. *)
Definition paired (self : LHEProcessor val) : Prop :=
  observations self = None <-> weights self = None.

(** Dataset [d'] extends Dataset [d]: the same keys in the same order, the
    same number of weight variations, no fewer events, every column and every
    weight slice of [d] at the front of the one of [d']. *)
Definition extends (d d' : dataset val) : Prop :=
  OrderedDict.keys (fst d') = OrderedDict.keys (fst d) /\
  weight_variations (snd d') = weight_variations (snd d) /\
  events (snd d) <= events (snd d') /\
  (forall k c, OrderedDict.get k (fst d) = Some c ->
     exists more, OrderedDict.get k (fst d') = Some (c ++ more)) /\
  (forall i, exists more,
     nth i (slices (snd d')) [] = nth i (slices (snd d)) [] ++ more).

(** The merged table when the loop of lines 107-111 stops at the first key
    the new sample lacks: the columns before that key are stacked, the
    others are as they were. *)
Fixpoint stacked_while (this_observations merged_observations : table val)
    : table val :=
  match merged_observations with
  | [] => []
  | (k, c) :: rest =>
      match OrderedDict.get k this_observations with
      | Some c' => (k, hstack1 c c') :: stacked_while this_observations rest
      | None => (k, c) :: rest
      end
  end.

(** Two Datasets have the same layout: as many weight variations and the
    same set of keys. *)
Definition same_layout (d x : dataset val) : Prop :=
  weight_variations (snd x) = weight_variations (snd d) /\
  incl (OrderedDict.keys (fst d)) (OrderedDict.keys (fst x)) /\
  incl (OrderedDict.keys (fst x)) (OrderedDict.keys (fst d)).

End MoreVocabulary.

(** * Facts *)

(** ** OrderedDict *)
Module OrderedDictFacts.
Import OrderedDict.

Lemma mem_In (k : string) (l : list string) : mem k l = true <-> In k l.
Proof.
  induction l as [|k' l IH]; simpl.
  - split; [discriminate | tauto].
  - rewrite orb_true_iff, IH, String.eqb_eq. intuition congruence.
Qed.

Lemma mem_false (k : string) (l : list string) :
  mem k l = false <-> ~ In k l.
Proof.
  rewrite <- mem_In. destruct (mem k l); intuition congruence.
Qed.

Lemma distinct_NoDup (l : list string) : distinct l = true <-> NoDup l.
Proof.
  induction l as [|k l IH]; simpl.
  - split; [constructor | reflexivity].
  - rewrite andb_true_iff, negb_true_iff, mem_false, IH.
    split.
    + intros [H1 H2]. now constructor.
    + intros H. inversion H. tauto.
Qed.

Section Values.
Context {V : Type}.
Implicit Types (d : t V) (k : string) (v : V).

Lemma contains_In k d : contains k d = true <-> In k (keys d).
Proof.
  unfold contains. induction d as [|[k' v'] d IH]; simpl.
  - split; [discriminate | tauto].
  - destruct (String.eqb_spec k k') as [->|Hne].
    + split; auto.
    + rewrite IH. intuition congruence.
Qed.

Lemma get_None k d : get k d = None <-> ~ In k (keys d).
Proof.
  rewrite <- contains_In. unfold contains.
  destruct (get k d); intuition congruence.
Qed.

Lemma get_Some_In k v d : get k d = Some v -> In k (keys d).
Proof.
  intros H. apply contains_In. unfold contains. now rewrite H.
Qed.

Lemma get_set_same k v d : get k (set k v d) = Some v.
Proof.
  induction d as [|[k' v'] d IH]; simpl.
  - now rewrite String.eqb_refl.
  - destruct (String.eqb_spec k k') as [->|Hne]; simpl.
    + now rewrite String.eqb_refl.
    + destruct (String.eqb_spec k k'); [contradiction | exact IH].
Qed.

Lemma get_set_other k k' v d : k <> k' -> get k' (set k v d) = get k' d.
Proof.
  intros Hne. induction d as [|[k0 v0] d IH]; simpl.
  - destruct (String.eqb_spec k' k); [congruence | reflexivity].
  - destruct (String.eqb_spec k k0) as [->|Hk]; simpl.
    + destruct (String.eqb_spec k' k0); [congruence | reflexivity].
    + now rewrite IH.
Qed.

(** Assignment to a key already present keeps the keys and their order;
    assignment to a new key appends it. *)
Lemma keys_set k v d :
  keys (set k v d) = if mem k (keys d) then keys d else keys d ++ [k].
Proof.
  unfold keys. induction d as [|[k' v'] d IH]; simpl; [reflexivity|].
  destruct (String.eqb_spec k k') as [->|Hne]; simpl; [reflexivity|].
  rewrite IH. now destruct (mem k (map fst d)).
Qed.

Lemma keys_set_present k v d : In k (keys d) -> keys (set k v d) = keys d.
Proof.
  intros H. rewrite keys_set. apply mem_In in H. now rewrite H.
Qed.

Lemma len_set_present k v d : In k (keys d) -> len (set k v d) = len d.
Proof.
  intros H. apply (keys_set_present k v) in H. unfold len, keys in *.
  now rewrite <- (length_map fst), H, length_map.
Qed.

Lemma wf_set k v d : wf d = true -> wf (set k v d) = true.
Proof.
  unfold wf. rewrite keys_set, !distinct_NoDup.
  destruct (mem k (keys d)) eqn:E; [auto|].
  intros H. apply mem_false in E.
  apply NoDup_app; auto.
  - repeat constructor. simpl. tauto.
  - simpl. intros x Hx [<-|[]]. contradiction.
Qed.

(** Assignment in the middle of a dict whose keys are distinct. *)
Lemma get_middle k v (d1 d2 : t V) :
  ~ In k (keys d1) -> get k (d1 ++ (k, v) :: d2) = Some v.
Proof.
  unfold keys. induction d1 as [|[k' v'] d1 IH]; simpl; intros H.
  - now rewrite String.eqb_refl.
  - destruct (String.eqb_spec k k'); [intuition congruence | apply IH; tauto].
Qed.

Lemma set_middle k v v' (d1 d2 : t V) :
  ~ In k (keys d1) ->
  set k v' (d1 ++ (k, v) :: d2) = d1 ++ (k, v') :: d2.
Proof.
  unfold keys. induction d1 as [|[k0 v0] d1 IH]; simpl; intros H.
  - now rewrite String.eqb_refl.
  - destruct (String.eqb_spec k k0); [intuition congruence|].
    rewrite IH; tauto.
Qed.

End Values.
End OrderedDictFacts.

(** ** numpy *)
Module NumpyFacts.
Section Values.
Context {val : Type}.
Implicit Types (a b c : array2 val) (xs ys zs : list (list val)).

Lemma length_zip_app xs ys :
  length xs = length ys -> length (zip_app xs ys) = length xs.
Proof.
  revert ys. induction xs as [|x xs IH]; intros [|y ys]; simpl; try easy.
  intros H. f_equal. apply IH. congruence.
Qed.

Lemma zip_app_assoc xs ys zs :
  zip_app (zip_app xs ys) zs = zip_app xs (zip_app ys zs).
Proof.
  revert ys zs.
  induction xs as [|x xs IH]; intros [|y ys] [|z zs]; simpl; try easy.
  now rewrite IH, app_assoc.
Qed.

Lemma nth_zip_app i xs ys :
  length xs = length ys ->
  nth i (zip_app xs ys) [] = nth i xs [] ++ nth i ys [].
Proof.
  revert i ys. induction xs as [|x xs IH]; intros i [|y ys]; simpl; try easy.
  - now destruct i.
  - intros H. destruct i; [reflexivity | apply IH; congruence].
Qed.

Lemma hstack2_same_shape0 a b :
  shape0 a = shape0 b ->
  hstack2 a b = Some {| axis1 := axis1 a + axis1 b;
                        slices := zip_app (slices a) (slices b) |}.
Proof.
  intros H. unfold hstack2. now rewrite H, Nat.eqb_refl.
Qed.

Lemma rectangular_zip_app (n m : nat) xs ys :
  length xs = length ys ->
  forallb (fun r => length r =? n) xs = true ->
  forallb (fun r => length r =? m) ys = true ->
  forallb (fun r => length r =? n + m) (zip_app xs ys) = true.
Proof.
  revert ys. induction xs as [|x xs IH]; intros [|y ys]; simpl; try easy.
  intros Hl Hx Hy.
  apply andb_true_iff in Hx as [Hx Hxs], Hy as [Hy Hys].
  apply Nat.eqb_eq in Hx, Hy.
  rewrite length_app, Hx, Hy, Nat.eqb_refl. simpl.
  apply IH; [congruence | assumption | assumption].
Qed.

End Values.
End NumpyFacts.

(** ** The monad and the loops *)
Section LoopFacts.

Context {val : Type}.
Implicit Types (w : world val) (o this : table val) (k : string).

Lemma for_each_app {A : Type} (l1 l2 : list A) (body : A -> M val unit) w :
  for_each (l1 ++ l2) body w =
  match for_each l1 body w with
  | (inl e, w') => (inl e, w')
  | (inr _, w') => for_each l2 body w'
  end.
Proof.
  revert w. induction l1 as [|x l1 IH]; intros w; simpl; [reflexivity|].
  unfold bind. destruct (body x w) as [[e|[]] w']; [reflexivity | apply IH].
Qed.

Lemma for_each_cons_raise {A : Type} (x : A) (l : list A)
    (body : A -> M val unit) w e w' :
  body x w = (inl e, w') -> for_each (x :: l) body w = (inl e, w').
Proof. intros H. simpl. unfold bind. now rewrite H. Qed.

(** One iteration of the column loop. *)
Lemma merge_column_present this k fs obs req o ws log c c' :
  OrderedDict.get k o = Some c ->
  OrderedDict.get k this = Some c' ->
  merge_column this k (mk_LHEProcessor fs obs req (Some o) ws, log) =
  (inr tt,
   (mk_LHEProcessor fs obs req
      (Some (OrderedDict.set k (hstack1 c c') o)) ws, log)).
Proof.
  intros Ho Ht. unfold merge_column, bind, OrderedDict.contains, getitem.
  rewrite Ht. simpl. now rewrite Ho.
Qed.

Lemma merge_column_missing this k w :
  OrderedDict.get k this = None ->
  merge_column this k w = (inl (AssertionError k), w).
Proof.
  intros Ht. unfold merge_column, bind, OrderedDict.contains.
  now rewrite Ht.
Qed.

(** The column loop over keys of the merged table either completes or stops
    at the first key the new sample lacks; it keeps the keys of the merged
    table and touches nothing but the observations. *)
Lemma merge_columns_outcome this (ks : list string) fs obs req o ws log :
  incl ks (OrderedDict.keys o) ->
  exists o',
    OrderedDict.keys o' = OrderedDict.keys o /\
    for_each ks (merge_column this)
             (mk_LHEProcessor fs obs req (Some o) ws, log) =
    (match first_missing this ks with
     | None => inr tt
     | Some k => inl (AssertionError k)
     end,
     (mk_LHEProcessor fs obs req (Some o') ws, log)).
Proof.
  revert o. induction ks as [|k ks IH]; intros o Hin.
  - exists o. split; reflexivity.
  - assert (Hk : In k (OrderedDict.keys o)) by (apply Hin; now left).
    assert (Hks : incl ks (OrderedDict.keys o))
      by (intros x Hx; apply Hin; now right).
    destruct (OrderedDict.get k o) as [c|] eqn:Ho;
      [|apply OrderedDictFacts.get_None in Ho; contradiction].
    unfold first_missing. simpl. unfold OrderedDict.contains at 1.
    destruct (OrderedDict.get k this) as [c'|] eqn:Ht; simpl.
    + destruct (IH (OrderedDict.set k (hstack1 c c') o)) as (o' & Hkeys & Hrun).
      { now rewrite OrderedDictFacts.keys_set_present. }
      exists o'. split.
      * now rewrite Hkeys, OrderedDictFacts.keys_set_present.
      * unfold bind. rewrite (merge_column_present _ _ _ _ _ _ _ _ c c') by easy.
        exact Hrun.
    + exists o. split; [reflexivity|].
      unfold bind. now rewrite merge_column_missing.
Qed.

(** On a dict, the loop that completes has stacked every column. *)
Lemma merge_columns_all this fs obs req (o1 o2 : table val) ws log :
  NoDup (OrderedDict.keys (o1 ++ o2)) ->
  forallb (fun k => OrderedDict.contains k this) (OrderedDict.keys o2) = true ->
  for_each (OrderedDict.keys o2) (merge_column this)
           (mk_LHEProcessor fs obs req (Some (o1 ++ o2)) ws, log) =
  (inr tt,
   (mk_LHEProcessor fs obs req (Some (o1 ++ stacked_columns this o2)) ws,
    log)).
Proof.
  revert o1. induction o2 as [|[k c] o2 IH]; intros o1 Hnd Hall.
  - reflexivity.
  - simpl in Hall. apply andb_true_iff in Hall as [Hk Hall].
    unfold OrderedDict.contains in Hk.
    destruct (OrderedDict.get k this) as [c'|] eqn:Ht; [|discriminate].
    assert (Hfresh : ~ In k (OrderedDict.keys o1)).
    { unfold OrderedDict.keys in *. rewrite map_app in Hnd. simpl in Hnd.
      apply NoDup_remove_2 in Hnd. rewrite in_app_iff in Hnd. tauto. }
    simpl. unfold bind.
    rewrite (merge_column_present _ _ _ _ _ _ _ _ c c');
      [|now apply OrderedDictFacts.get_middle | assumption].
    rewrite OrderedDictFacts.set_middle by assumption.
    replace (o1 ++ (k, hstack1 c c') :: o2)
      with ((o1 ++ [(k, hstack1 c c')]) ++ o2)
      by now rewrite <- app_assoc.
    rewrite IH.
    + simpl. unfold column at 1. simpl. rewrite Ht. rewrite <- app_assoc.
      reflexivity.
    + unfold OrderedDict.keys in *. rewrite <- app_assoc. simpl.
      rewrite !map_app in *. simpl in *. exact Hnd.
    + exact Hall.
Qed.

End LoopFacts.

(** ** One sample *)
Section SampleFacts.

Context {val : Type}.
Variable extract : string -> OrderedDict.t string -> OrderedDict.t bool ->
                   exn + dataset val.

Implicit Types (p : LHEProcessor val) (log : list log_record)
  (d this : dataset val) (f : string).

Local Abbreviation analysing := (analyse_lhe_sample extract).

Local Ltac open_sample p H :=
  destruct p as [fs obs req oo ow]; unfold sample in H;
  unfold analyse_lhe_sample, bind, logging_info, get_self, lift;
  simpl in *; rewrite H; simpl.

(** What the parser raises leaves the loop body as it is, after the log
    line and before any attribute is written. *)
Lemma analysing_raise p log f e :
  sample extract p f = inl e ->
  analysing f (p, log) = (inl e, (p, log ++ [Analysing_LHE_sample f])).
Proof. intros H. open_sample p H. reflexivity. Qed.

Lemma analysing_first p log f this :
  observations p = None -> weights p = None ->
  sample extract p f = inr this ->
  analysing f (p, log) =
  (inr tt, (set_weights (Some (snd this))
              (set_observations (Some (fst this)) p),
            log ++ [Analysing_LHE_sample f])).
Proof. intros Ho Hw H. open_sample p H. subst. reflexivity. Qed.

Lemma analysing_weights_mismatch p log f this w :
  weights p = Some w ->
  sample extract p f = inr this ->
  shape0 w <> shape0 (snd this) ->
  analysing f (p, log) =
  (inl (ValueError_weights (shape0 w) (shape0 (snd this))),
   (p, log ++ [Analysing_LHE_sample f])).
Proof.
  intros Hw H Hne. open_sample p H. subst.
  apply Nat.eqb_neq in Hne. rewrite Hne. now destruct oo.
Qed.

Lemma analysing_observations_mismatch p log f this o w :
  observations p = Some o -> weights p = Some w ->
  sample extract p f = inr this ->
  shape0 w = shape0 (snd this) ->
  OrderedDict.len o <> OrderedDict.len (fst this) ->
  analysing f (p, log) =
  (inl (ValueError_observations (OrderedDict.len o)
                                (OrderedDict.len (fst this))),
   (p, log ++ [Analysing_LHE_sample f])).
Proof.
  intros Ho Hw H Hs Hne. open_sample p H. subst.
  rewrite Hs, Nat.eqb_refl. simpl.
  apply Nat.eqb_neq in Hne. now rewrite Hne.
Qed.

(** Both checks passed: the weights are stacked, then the column loop
    runs. *)
Lemma analysing_columns p log f this o w :
  observations p = Some o -> weights p = Some w ->
  sample extract p f = inr this ->
  shape0 w = shape0 (snd this) ->
  OrderedDict.len o = OrderedDict.len (fst this) ->
  analysing f (p, log) =
  for_each (OrderedDict.keys o) (merge_column (fst this))
    (set_weights (Some (snd (stack (o, w) this))) p,
     log ++ [Analysing_LHE_sample f]).
Proof.
  intros Ho Hw H Hs Hl. open_sample p H. subst.
  rewrite Hs, Hl, !Nat.eqb_refl. simpl.
  rewrite NumpyFacts.hstack2_same_shape0 by assumption. reflexivity.
Qed.

Lemma compatible_spec d this :
  compatible d this = true <->
  shape0 (snd d) = shape0 (snd this) /\
  OrderedDict.len (fst d) = OrderedDict.len (fst this) /\
  first_missing (fst this) (OrderedDict.keys (fst d)) = None.
Proof.
  unfold compatible, first_missing.
  rewrite !andb_true_iff, !Nat.eqb_eq.
  assert (E : forall ks,
    forallb (fun k => OrderedDict.contains k (fst this)) ks = true <->
    find (fun k => negb (OrderedDict.contains k (fst this))) ks = None).
  { induction ks as [|k ks IH]; simpl; [tauto|].
    destruct (OrderedDict.contains k (fst this)); simpl;
      [exact IH | split; discriminate]. }
  rewrite E. tauto.
Qed.

(** A compatible sample on a merged Dataset whose table is a dict. *)
Lemma analysing_compatible p log f this o w :
  observations p = Some o -> weights p = Some w ->
  OrderedDict.wf o = true ->
  sample extract p f = inr this ->
  compatible (o, w) this = true ->
  analysing f (p, log) =
  (inr tt,
   (set_weights (Some (snd (stack (o, w) this)))
      (set_observations (Some (fst (stack (o, w) this))) p),
    log ++ [Analysing_LHE_sample f])).
Proof.
  intros Ho Hw Hwf H Hc.
  pose proof Hc as Hc'. apply compatible_spec in Hc' as (Hs & Hl & _).
  rewrite (analysing_columns p log f this o w) by assumption.
  unfold compatible in Hc. rewrite !andb_true_iff in Hc.
  destruct Hc as [_ Hall]. simpl in Hall.
  destruct p as [fs obs req oo ow]. simpl in *. subst.
  apply OrderedDictFacts.distinct_NoDup in Hwf.
  exact (merge_columns_all (fst this) fs obs req [] o _ _ Hwf Hall).
Qed.

(** Every way one pass through the loop body can end. *)
Lemma analysing_outcome p log f :
  let log' := log ++ [Analysing_LHE_sample f] in
  match sample extract p f with
  | inl e => analysing f (p, log) = (inl e, (p, log'))
  | inr this =>
      match weights p, observations p with
      | None, None =>
          analysing f (p, log) =
          (inr tt, (set_weights (Some (snd this))
                      (set_observations (Some (fst this)) p), log'))
      | None, Some _ => analysing f (p, log) = (inl AttributeError, (p, log'))
      | Some w, oo =>
          if shape0 w =? shape0 (snd this) then
            match oo with
            | None => analysing f (p, log) = (inl TypeError, (p, log'))
            | Some o =>
                if OrderedDict.len o =? OrderedDict.len (fst this) then
                  exists o',
                    OrderedDict.keys o' = OrderedDict.keys o /\
                    analysing f (p, log) =
                    (match first_missing (fst this) (OrderedDict.keys o) with
                     | None => inr tt
                     | Some k => inl (AssertionError k)
                     end,
                     (set_weights (Some (snd (stack (o, w) this)))
                        (set_observations (Some o') p), log'))
                else
                  analysing f (p, log) =
                  (inl (ValueError_observations
                          (OrderedDict.len o) (OrderedDict.len (fst this))),
                   (p, log'))
            end
          else
            analysing f (p, log) =
            (inl (ValueError_weights (shape0 w) (shape0 (snd this))),
             (p, log'))
      end
  end.
Proof.
  intros log'. destruct (sample extract p f) as [e|this] eqn:H.
  - now apply analysing_raise.
  - destruct (weights p) as [w|] eqn:Hw, (observations p) as [o|] eqn:Ho.
    + destruct (Nat.eqb_spec (shape0 w) (shape0 (snd this))) as [Hs|Hs];
        [|now apply analysing_weights_mismatch].
      destruct (Nat.eqb_spec (OrderedDict.len o) (OrderedDict.len (fst this)))
        as [Hl|Hl]; [|now apply analysing_observations_mismatch with (w := w)].
      rewrite (analysing_columns p log f this o w) by assumption.
      destruct p as [fs obs req oo ow]. simpl in *. subst.
      exact (merge_columns_outcome (fst this) _ fs obs req o _ _
               (incl_refl _)).
    + destruct (Nat.eqb_spec (shape0 w) (shape0 (snd this))) as [Hs|Hs];
        [|now apply analysing_weights_mismatch].
      open_sample p H. subst. rewrite Hs, Nat.eqb_refl. reflexivity.
    + open_sample p H. subst. reflexivity.
    + now apply analysing_first.
Qed.

(** The loop body writes [observations] and [weights] only, and logs one
    line. *)
Lemma analysing_frame f (w : world val) :
  exists oo ow,
    snd (analysing f w) =
    (set_weights ow (set_observations oo (fst w)),
     snd w ++ [Analysing_LHE_sample f]).
Proof.
  destruct w as [p log].
  pose proof (analysing_outcome p log f) as H. simpl in H.
  assert (Hid : (p, log ++ [Analysing_LHE_sample f]) =
                (set_weights (weights p) (set_observations (observations p) p),
                 log ++ [Analysing_LHE_sample f]))
    by now destruct p.
  destruct (sample extract p f) as [e|this].
  { exists (observations p), (weights p). now rewrite H. }
  destruct (weights p) as [w|] eqn:Hw, (observations p) as [o|] eqn:Ho;
    try destruct (shape0 w =? shape0 (snd this));
    try destruct (OrderedDict.len o =? OrderedDict.len (fst this));
    try destruct H as (o' & _ & H);
    rewrite H; simpl; eauto.
Qed.

(** A pass that raises anything but the assertion of line 108 has written
    no attribute. *)
Lemma analysing_raise_inv f (w w' : world val) e :
  analysing f w = (inl e, w') ->
  snd w' = snd w ++ [Analysing_LHE_sample f] /\
  (is_AssertionError e = false -> fst w' = fst w).
Proof.
  destruct w as [p log]. intros Hrun.
  pose proof (analysing_outcome p log f) as H. simpl in H.
  destruct (sample extract p f) as [e0|this].
  { rewrite H in Hrun. now inversion Hrun. }
  destruct (weights p) as [w|] eqn:Hw, (observations p) as [o|] eqn:Ho;
    try destruct (shape0 w =? shape0 (snd this));
    try destruct (OrderedDict.len o =? OrderedDict.len (fst this));
    try destruct H as (o' & _ & H);
    rewrite H in Hrun; try (now inversion Hrun).
  destruct (first_missing (fst this) (OrderedDict.keys o));
    inversion Hrun; subst; simpl; split; [reflexivity | discriminate].
Qed.

(** A pass in which the extraction raised, or that raised anything but the
    assertion of line 108, has written no attribute. *)
Lemma analysing_raise_origin f (w w' : world val) e :
  analysing f w = (inl e, w') ->
  snd w' = snd w ++ [Analysing_LHE_sample f] /\
  (sample extract (fst w) f = inl e \/ is_AssertionError e = false ->
   fst w' = fst w).
Proof.
  intros Hrun.
  destruct (analysing_raise_inv f w w' e Hrun) as [Hlog Hself].
  split; [exact Hlog|].
  intros [Hs|He]; [|now apply Hself].
  destruct w as [p log]. simpl in Hs.
  rewrite (analysing_raise p log f e Hs) in Hrun.
  now inversion Hrun.
Qed.

End SampleFacts.

(** ** The merged Dataset as a fold *)
Section StackFacts.

Context {val : Type}.
Implicit Types (d this : dataset val) (o : table val) (k : string).

Lemma keys_stacked_columns this_observations o :
  OrderedDict.keys (stacked_columns this_observations o)
  = OrderedDict.keys o.
Proof.
  unfold stacked_columns, OrderedDict.keys. rewrite map_map. reflexivity.
Qed.

Lemma get_stacked_columns this_observations o k :
  OrderedDict.get k (stacked_columns this_observations o) =
  option_map (fun c => hstack1 c (column k this_observations))
             (OrderedDict.get k o).
Proof.
  induction o as [|[k' c] o IH]; simpl; [reflexivity|].
  destruct (String.eqb_spec k k') as [->|]; [reflexivity | exact IH].
Qed.

Lemma compatible_stack d this x :
  compatible d this = true ->
  compatible (stack d this) x = compatible d x.
Proof.
  intros H. apply andb_true_iff in H as [H _].
  apply andb_true_iff in H as [H _]. apply Nat.eqb_eq in H.
  unfold compatible, stack, shape0 in *. simpl.
  rewrite keys_stacked_columns, NumpyFacts.length_zip_app by assumption.
  unfold OrderedDict.len, stacked_columns. now rewrite length_map.
Qed.

Lemma compatible_stack_all d this (ds : list (dataset val)) :
  compatible d this = true ->
  forallb (compatible (stack d this)) ds = forallb (compatible d) ds.
Proof.
  intros H. induction ds as [|x ds IH]; simpl; [reflexivity|].
  now rewrite IH, compatible_stack.
Qed.

Lemma wf_stack d this :
  OrderedDict.wf (fst (stack d this)) = OrderedDict.wf (fst d).
Proof.
  unfold OrderedDict.wf, stack. simpl. now rewrite keys_stacked_columns.
Qed.

Lemma keys_fold_stack (ds : list (dataset val)) d :
  OrderedDict.keys (fst (fold_left stack ds d)) = OrderedDict.keys (fst d).
Proof.
  revert d. induction ds as [|this ds IH]; intros d; simpl; [reflexivity|].
  rewrite IH. apply keys_stacked_columns.
Qed.

(** Column [k] of the fold: the column it started with, then the samples'
    columns in order. *)
Lemma column_fold_stack (ds : list (dataset val)) d k :
  In k (OrderedDict.keys (fst d)) ->
  OrderedDict.get k (fst (fold_left stack ds d)) =
  Some (column k (fst d) ++ concat (map (fun x => column k (fst x)) ds)).
Proof.
  revert d. induction ds as [|this ds IH]; intros d Hk; simpl.
  - rewrite app_nil_r. unfold column.
    destruct (OrderedDict.get k (fst d)) eqn:E; [reflexivity|].
    apply OrderedDictFacts.get_None in E. contradiction.
  - rewrite IH by (simpl; now rewrite keys_stacked_columns).
    f_equal. rewrite app_assoc. f_equal.
    unfold column at 1. simpl. rewrite get_stacked_columns.
    unfold column at 2.
    destruct (OrderedDict.get k (fst d)) eqn:E; [reflexivity|].
    apply OrderedDictFacts.get_None in E. contradiction.
Qed.

Lemma shape0_fold_stack (ds : list (dataset val)) d :
  forallb (compatible d) ds = true ->
  shape0 (snd (fold_left stack ds d)) = shape0 (snd d).
Proof.
  revert d. induction ds as [|this ds IH]; intros d H; simpl; [reflexivity|].
  simpl in H. apply andb_true_iff in H as [Hc H].
  rewrite IH.
  - apply andb_true_iff in Hc as [Hc _].
    apply andb_true_iff in Hc as [Hc _]. apply Nat.eqb_eq in Hc.
    unfold stack, shape0 in *. simpl.
    now apply NumpyFacts.length_zip_app.
  - now rewrite compatible_stack_all.
Qed.

Lemma events_fold_stack (ds : list (dataset val)) d :
  events (snd (fold_left stack ds d)) =
  events (snd d) + list_sum (map (fun x => events (snd x)) ds).
Proof.
  revert d. induction ds as [|this ds IH]; intros d; simpl; [lia|].
  rewrite IH. unfold events, shape1. simpl. lia.
Qed.

(** Slice [i] of the fold's weights: the slice it started with, then the
    samples' slices in order. *)
Lemma slice_fold_stack (ds : list (dataset val)) d i :
  forallb (compatible d) ds = true ->
  nth i (slices (snd (fold_left stack ds d))) [] =
  nth i (slices (snd d)) []
  ++ concat (map (fun x => nth i (slices (snd x)) []) ds).
Proof.
  revert d. induction ds as [|this ds IH]; intros d H; simpl.
  - now rewrite app_nil_r.
  - simpl in H. apply andb_true_iff in H as [Hc H].
    rewrite IH.
    + rewrite app_assoc. f_equal.
      apply andb_true_iff in Hc as [Hc _].
      apply andb_true_iff in Hc as [Hc _]. apply Nat.eqb_eq in Hc.
      simpl. now apply NumpyFacts.nth_zip_app.
    + now rewrite compatible_stack_all.
Qed.

(** Stacking keeps the weights rectangular and the shape invariant. *)
Lemma sound_stack d this :
  compatible d this = true ->
  rectangular (snd d) = true -> rectangular (snd this) = true ->
  shape_invariant d = true -> shape_invariant this = true ->
  rectangular (snd (stack d this)) = true /\
  shape_invariant (stack d this) = true.
Proof.
  intros Hc Hrd Hrt Hsd Hst.
  pose proof Hc as Hc0.
  apply andb_true_iff in Hc as [Hc Hall].
  apply andb_true_iff in Hc as [Hs _]. apply Nat.eqb_eq in Hs.
  split.
  - unfold rectangular, stack. simpl.
    now apply NumpyFacts.rectangular_zip_app.
  - unfold shape_invariant, stack, stacked_columns, events, shape1 in *.
    simpl. rewrite forallb_forall in *.
    intros kc Hin. apply in_map_iff in Hin as ([k c] & <- & Hin). simpl.
    assert (Hk : OrderedDict.contains k (fst this) = true).
    { apply Hall. apply in_map_iff. now exists (k, c). }
    pose proof (Hsd _ Hin) as Hlen. simpl in Hlen. apply Nat.eqb_eq in Hlen.
    unfold hstack1. rewrite length_app, Hlen.
    unfold column, OrderedDict.contains in *.
    destruct (OrderedDict.get k (fst this)) as [c'|] eqn:E; [|discriminate].
    assert (Hin' : In (k, c') (fst this)).
    { clear - E. induction (fst this) as [|[k0 c0] l IH]; simpl in *;
        [discriminate|].
      destruct (String.eqb_spec k k0) as [->|];
        [inversion E; now left | right; auto]. }
    apply Hst in Hin'. simpl in Hin'. apply Nat.eqb_eq in Hin'.
    rewrite Hin'. apply Nat.eqb_refl.
Qed.

End StackFacts.

(** ** The loop over the sample files *)
Section RunFacts.

Context {val : Type}.
Variable extract : string -> OrderedDict.t string -> OrderedDict.t bool ->
                   exn + dataset val.

Implicit Types (p : LHEProcessor val) (log : list log_record)
  (d this : dataset val) (f : string) (files : list string).

Local Abbreviation running := (analyse_loop extract).
Local Abbreviation extracts p :=
  (Forall2 (fun f d => sample extract p f = inr d)).

Lemma set_same p :
  set_weights (weights p) (set_observations (observations p) p) = p.
Proof. now destruct p. Qed.

(** The loop writes [observations] and [weights] only. *)
Lemma running_frame files (w : world val) :
  exists oo ow,
    fst (snd (running files w)) = set_weights ow (set_observations oo (fst w)).
Proof.
  revert w. induction files as [|f files IH]; intros w.
  - exists (observations (fst w)), (weights (fst w)). simpl.
    now rewrite set_same.
  - unfold analyse_loop. simpl. unfold bind.
    destruct (analysing_frame extract f w) as (oo & ow & H).
    destruct (analyse_lhe_sample extract f w) as [[e|[]] w1]; simpl in H.
    + exists oo, ow. now rewrite H.
    + destruct (IH w1) as (oo' & ow' & H').
      exists oo', ow'. unfold analyse_loop in H'. rewrite H', H.
      reflexivity.
Qed.

(** A run that returns has logged every file name, in order. *)
Lemma running_log files (w w' : world val) :
  running files w = (inr tt, w') ->
  snd w' = snd w ++ map Analysing_LHE_sample files.
Proof.
  revert w. induction files as [|f files IH]; intros w H.
  - inversion H. simpl. now rewrite app_nil_r.
  - unfold analyse_loop in H. simpl in H. unfold bind in H.
    destruct (analysing_frame extract f w) as (oo & ow & Hf).
    destruct (analyse_lhe_sample extract f w) as [[e|[]] w1];
      [discriminate|].
    apply IH in H. rewrite H. simpl in Hf. rewrite Hf. simpl.
    now rewrite <- app_assoc.
Qed.

(** Compatible samples are merged, one after the other. *)
Lemma running_compatible files (ds : list (dataset val)) p log d :
  observations p = Some (fst d) -> weights p = Some (snd d) ->
  OrderedDict.wf (fst d) = true ->
  extracts p files ds ->
  forallb (compatible d) ds = true ->
  running files (p, log) =
  (inr tt, (holding (fold_left stack ds d) p,
            log ++ map Analysing_LHE_sample files)).
Proof.
  intros Ho Hw Hwf Hex. revert log d Ho Hw Hwf.
  assert (G : forall q, (forall f, sample extract q f = sample extract p f) ->
    forall log d, observations q = Some (fst d) -> weights q = Some (snd d) ->
    OrderedDict.wf (fst d) = true -> forallb (compatible d) ds = true ->
    running files (q, log) =
    (inr tt, (holding (fold_left stack ds d) q,
              log ++ map Analysing_LHE_sample files))).
  { induction Hex as [|f this files ds Hf Hex IH];
      intros q Hq log d Ho Hw Hwf Hc.
    - simpl. unfold holding. rewrite <- Ho, <- Hw, set_same.
      now rewrite app_nil_r.
    - simpl in Hc. apply andb_true_iff in Hc as [Hc Hcs].
      unfold analyse_loop. simpl. unfold bind.
      rewrite <- Hq in Hf. destruct d as [o w]. simpl in Ho, Hw, Hwf.
      rewrite (analysing_compatible extract q log f this o w) by assumption.
      fold (holding (stack (o, w) this) q).
      assert (Hq' : forall g, sample extract (holding (stack (o, w) this) q) g
                              = sample extract p g)
        by (intros g; now rewrite <- Hq).
      specialize (IH (holding (stack (o, w) this) q) Hq'
                     (log ++ [Analysing_LHE_sample f]) (stack (o, w) this)).
      unfold analyse_loop in IH. rewrite IH.
      + simpl. now rewrite <- app_assoc.
      + reflexivity.
      + reflexivity.
      + now rewrite wf_stack.
      + now rewrite compatible_stack_all. }
  intros log d Ho Hw Hwf Hc.
  exact (G p (fun _ => eq_refl) log d Ho Hw Hwf Hc).
Qed.

(** A run that returns from a merged state saw compatible samples only. *)
Lemma running_returns files p log d (w' : world val) :
  observations p = Some (fst d) -> weights p = Some (snd d) ->
  OrderedDict.wf (fst d) = true ->
  running files (p, log) = (inr tt, w') ->
  exists ds, extracts p files ds /\ forallb (compatible d) ds = true.
Proof.
  assert (G : forall files q,
    (forall f, sample extract q f = sample extract p f) ->
    forall log d, observations q = Some (fst d) -> weights q = Some (snd d) ->
    OrderedDict.wf (fst d) = true ->
    running files (q, log) = (inr tt, w') ->
    exists ds, extracts p files ds /\ forallb (compatible d) ds = true).
  { clear. induction files as [|f files IH]; intros q Hq log d Ho Hw Hwf Hrun.
    - exists []. split; [constructor | reflexivity].
    - unfold analyse_loop in Hrun. simpl in Hrun. unfold bind in Hrun.
      pose proof (analysing_outcome extract q log f) as H. simpl in H.
      destruct (sample extract q f) as [e|this] eqn:Hs;
        [rewrite H in Hrun; discriminate|].
      rewrite Hw, Ho in H. destruct d as [o w]. simpl in *.
      destruct (Nat.eqb_spec (shape0 w) (shape0 (snd this))) as [E1|E1];
        [|rewrite H in Hrun; discriminate].
      destruct (Nat.eqb_spec (OrderedDict.len o) (OrderedDict.len (fst this)))
        as [E2|E2]; [|rewrite H in Hrun; discriminate].
      destruct H as (o' & _ & H).
      destruct (first_missing (fst this) (OrderedDict.keys o)) eqn:E3;
        [rewrite H in Hrun; discriminate|].
      assert (Hc : compatible (o, w) this = true)
        by (apply compatible_spec; auto).
      clear H.
      rewrite (analysing_compatible extract q log f this o w) in Hrun
        by assumption.
      apply (IH (holding (stack (o, w) this) q)) with (d := stack (o, w) this)
        in Hrun; try reflexivity.
      + destruct Hrun as (ds & Hex & Hcs). exists (this :: ds). split.
        * constructor; [now rewrite <- Hq | assumption].
        * simpl. rewrite Hc. simpl.
          now rewrite compatible_stack_all in Hcs.
      + intros g. now rewrite <- Hq.
      + now rewrite wf_stack. }
  intros Ho Hw Hwf Hrun.
  exact (G files p (fun _ => eq_refl) log d Ho Hw Hwf Hrun).
Qed.

(** A run from the state in which nothing is merged: the first sample is
    taken as it is, the others are merged into it. *)
Lemma running_fresh f files p log (w' : world val) :
  nothing_merged p ->
  samples_well_formed extract p (f :: files) ->
  running (f :: files) (p, log) = (inr tt, w') ->
  exists d ds,
    sample extract p f = inr d /\
    extracts p files ds /\
    forallb (compatible d) ds = true /\
    w' = (holding (fold_left stack ds d) p,
          log ++ map Analysing_LHE_sample (f :: files)).
Proof.
  intros [Ho Hw] Hwf Hrun.
  pose proof Hrun as Hrun0.
  unfold analyse_loop in Hrun. simpl in Hrun. unfold bind in Hrun.
  pose proof (analysing_outcome extract p log f) as H. simpl in H.
  destruct (sample extract p f) as [e|d] eqn:Hs;
    [rewrite H in Hrun; discriminate|].
  rewrite Hw, Ho in H. rewrite H in Hrun.
  assert (Hd : OrderedDict.wf (fst d) = true).
  { specialize (Hwf f d (or_introl eq_refl) Hs).
    now apply andb_true_iff in Hwf as [Hwf _]. }
  fold (holding d p) in Hrun.
  destruct (running_returns files (holding d p) _ d w' eq_refl eq_refl Hd Hrun)
    as (ds & Hex & Hcs).
  exists d, ds. repeat split; try assumption.
  change (for_each files (analyse_lhe_sample extract))
    with (running files) in Hrun.
  rewrite (running_compatible files ds (holding d p) _ d) in Hrun
    by (try reflexivity; assumption).
  inversion Hrun. simpl. now rewrite <- app_assoc.
Qed.

End RunFacts.

(** ** Prefixes of a run *)
Section PrefixFacts.

Context {val : Type}.
Variable extract : string -> OrderedDict.t string -> OrderedDict.t bool ->
                   exn + dataset val.

Implicit Types (p : LHEProcessor val) (log : list log_record) (f : string).

(** The registries a sample is extracted under are those the run started
    with. *)
Lemma running_sample (files : list string) (w : world val) f :
  sample extract (fst (snd (analyse_loop extract files w))) f
  = sample extract (fst w) f.
Proof.
  destruct (running_frame extract files w) as (oo & ow & H).
  now rewrite H.
Qed.

Lemma running_registration (files : list string) (w : world val) :
  let p' := fst (snd (analyse_loop extract files w)) in
  lhe_sample_filenames p' = lhe_sample_filenames (fst w) /\
  observables p' = observables (fst w) /\
  observables_required p' = observables_required (fst w).
Proof.
  destruct (running_frame extract files w) as (oo & ow & H).
  simpl. rewrite H. repeat split.
Qed.

(** A run stops at the first sample whose pass raises. *)
Lemma running_stops (pre post : list string) f (w w1 w' : world val) e :
  analyse_loop extract pre w = (inr tt, w1) ->
  analyse_lhe_sample extract f w1 = (inl e, w') ->
  analyse_loop extract (pre ++ f :: post) w = (inl e, w').
Proof.
  intros Hpre Hf. unfold analyse_loop in *.
  rewrite for_each_app, Hpre. now apply for_each_cons_raise.
Qed.

(** A run that raises stopped at some sample, after the ones before it. *)
Lemma running_raise_inv (files : list string) (w w' : world val) e :
  analyse_loop extract files w = (inl e, w') ->
  exists pre f post w1,
    files = pre ++ f :: post /\
    analyse_loop extract pre w = (inr tt, w1) /\
    analyse_lhe_sample extract f w1 = (inl e, w').
Proof.
  revert w. induction files as [|f files IH]; intros w H; [discriminate|].
  unfold analyse_loop in H. simpl in H. unfold bind in H.
  destruct (analyse_lhe_sample extract f w) as [[e0|[]] w0] eqn:E.
  - inversion H; subst. exists [], f, files, w. now repeat split.
  - apply IH in H as (pre & g & post & w1 & -> & Hpre & Hg).
    exists (f :: pre), g, post, w1. repeat split; [|assumption].
    unfold analyse_loop. simpl. unfold bind. now rewrite E.
Qed.

Lemma analyse_lhe_samples_loop (w : world val) :
  analyse_lhe_samples extract w
  = analyse_loop extract (lhe_sample_filenames (fst w)) w.
Proof. reflexivity. Qed.

End PrefixFacts.

(** ** Soundness of the merged Dataset *)
Section SoundFacts.

Context {val : Type}.
Variable extract : string -> OrderedDict.t string -> OrderedDict.t bool ->
                   exn + dataset val.

Implicit Types (p : LHEProcessor val) (d : dataset val).

Lemma sound_fold_stack (ds : list (dataset val)) d :
  sound d -> Forall sound ds ->
  forallb (compatible d) ds = true ->
  sound (fold_left stack ds d).
Proof.
  intros Hd Hds. revert d Hd.
  induction Hds as [|this ds Hthis Hds IH]; intros d Hd Hc; simpl;
    [assumption|].
  simpl in Hc. apply andb_true_iff in Hc as [Hc Hcs].
  apply IH; [|now rewrite compatible_stack_all].
  destruct Hd as [Hwd Hsd], Hthis as [Hwt Hst].
  unfold well_formed in *.
  apply andb_true_iff in Hwd as [Hkd Hrd], Hwt as [Hkt Hrt].
  destruct (sound_stack d this Hc Hrd Hrt Hsd Hst) as [Hr Hs].
  split; [|exact Hs].
  unfold well_formed. now rewrite wf_stack, Hkd, Hr.
Qed.

Lemma extracts_sound p (files : list string) (ds : list (dataset val)) :
  samples_well_formed extract p files ->
  samples_shape_invariant extract p files ->
  Forall2 (fun f d => sample extract p f = inr d) files ds ->
  Forall sound ds.
Proof.
  intros Hwf Hsh Hex.
  induction Hex as [|f d files ds Hf Hex IH]; constructor.
  - split; [apply (Hwf f) | apply (Hsh f)]; simpl; auto.
  - apply IH; intros g x Hg; [apply Hwf | apply Hsh]; simpl; auto.
Qed.

Lemma merged_sound_holding d p : sound d -> merged_sound (holding d p).
Proof. destruct d as [o w]. intros H. exact H. Qed.

End SoundFacts.

(** ** What the samples contribute, file by file *)
Section ContributionFacts.

Context {val : Type}.
Variable extract : string -> OrderedDict.t string -> OrderedDict.t bool ->
                   exn + dataset val.

Implicit Types (p : LHEProcessor val) (d : dataset val).

Lemma extracts_map {B : Type} p (files : list string)
    (ds : list (dataset val)) (g : exn + dataset val -> B) :
  Forall2 (fun f d => sample extract p f = inr d) files ds ->
  map (fun f => g (sample extract p f)) files = map (fun d => g (inr d)) ds.
Proof.
  induction 1 as [|f d files ds Hf Hex IH]; simpl; [reflexivity|].
  now rewrite Hf, IH.
Qed.

Lemma extracts_columns p files ds k :
  Forall2 (fun f d => sample extract p f = inr d) files ds ->
  map (sample_column extract p k) files = map (fun d => column k (fst d)) ds.
Proof.
  intros H.
  exact (extracts_map p files ds
           (fun r => match r with inr d => column k (fst d) | inl _ => [] end)
           H).
Qed.

Lemma extracts_slices p files ds i :
  Forall2 (fun f d => sample extract p f = inr d) files ds ->
  map (sample_slice extract p i) files
  = map (fun d => nth i (slices (snd d)) []) ds.
Proof.
  intros H.
  exact (extracts_map p files ds
           (fun r => match r with
                     | inr d => nth i (slices (snd d)) []
                     | inl _ => []
                     end) H).
Qed.

Lemma extracts_events p files ds :
  Forall2 (fun f d => sample extract p f = inr d) files ds ->
  map (sample_events extract p) files = map (fun d => events (snd d)) ds.
Proof.
  intros H.
  exact (extracts_map p files ds
           (fun r => match r with inr d => events (snd d) | inl _ => 0 end)
           H).
Qed.

(** The Dataset held after a run from the state in which nothing is merged:
    per key, per slice and in its event count it is the samples' contributions
    in the order of the file names. *)
Lemma fresh_fold_contents p f files d ds :
  sample extract p f = inr d ->
  Forall2 (fun g x => sample extract p g = inr x) files ds ->
  forallb (compatible d) ds = true ->
  let D := fold_left stack ds d in
  OrderedDict.keys (fst D) = sample_keys extract p f /\
  (forall k, In k (OrderedDict.keys (fst D)) ->
     OrderedDict.get k (fst D) =
     Some (concat (map (sample_column extract p k) (f :: files)))) /\
  (forall i, nth i (slices (snd D)) [] =
             concat (map (sample_slice extract p i) (f :: files))) /\
  events (snd D) = list_sum (map (sample_events extract p) (f :: files)).
Proof.
  intros Hd Hex Hc D. subst D. repeat split.
  - rewrite keys_fold_stack. unfold sample_keys. now rewrite Hd.
  - intros k Hk. rewrite keys_fold_stack in Hk.
    rewrite column_fold_stack by assumption. simpl.
    rewrite (extracts_columns p files ds k Hex).
    unfold sample_column at 1. now rewrite Hd.
  - intros i. rewrite slice_fold_stack by assumption. simpl.
    rewrite (extracts_slices p files ds i Hex).
    unfold sample_slice at 1. now rewrite Hd.
  - rewrite events_fold_stack. simpl.
    rewrite (extracts_events p files ds Hex).
    unfold sample_events at 1. now rewrite Hd.
Qed.

End ContributionFacts.

(** ** Running again *)
Section AgainFacts.

Context {val : Type}.
Implicit Types (d x : dataset val) (ds : list (dataset val)).

Lemma compatible_self d : compatible d d = true.
Proof.
  unfold compatible. rewrite !Nat.eqb_refl. simpl.
  apply forallb_forall. intros k Hk.
  now apply OrderedDictFacts.contains_In.
Qed.

Lemma compatible_fold ds d x :
  forallb (compatible d) ds = true ->
  compatible (fold_left stack ds d) x = compatible d x.
Proof.
  revert d. induction ds as [|this ds IH]; intros d H; simpl; [reflexivity|].
  simpl in H. apply andb_true_iff in H as [Hc Hcs].
  rewrite IH by now rewrite compatible_stack_all.
  now apply compatible_stack.
Qed.

Lemma compatible_fold_all ds d (xs : list (dataset val)) :
  forallb (compatible d) ds = true ->
  forallb (compatible (fold_left stack ds d)) xs = forallb (compatible d) xs.
Proof.
  intros H. induction xs as [|x xs IH]; simpl; [reflexivity|].
  now rewrite IH, compatible_fold.
Qed.

Lemma wf_fold_stack ds d :
  OrderedDict.wf (fst (fold_left stack ds d)) = OrderedDict.wf (fst d).
Proof. unfold OrderedDict.wf. now rewrite keys_fold_stack. Qed.

(** The slices of the fold, as a fold over slices. *)
Lemma slices_fold_stack ds d :
  slices (snd (fold_left stack ds d)) =
  fold_left (fun s x => zip_app s (slices (snd x))) ds (slices (snd d)).
Proof.
  revert d. induction ds as [|this ds IH]; intros d; simpl; [reflexivity|].
  now rewrite IH.
Qed.

Lemma fold_zip_app ds (a b : list (list val)) :
  fold_left (fun s x => zip_app s (slices (snd x))) ds (zip_app a b) =
  zip_app a (fold_left (fun s x => zip_app s (slices (snd x))) ds b).
Proof.
  revert b. induction ds as [|this ds IH]; intros b; simpl; [reflexivity|].
  now rewrite NumpyFacts.zip_app_assoc, IH.
Qed.

(** Folding the samples once more into their own fold doubles it. *)
Lemma fold_again d ds :
  forallb (compatible d) ds = true ->
  let D := fold_left stack ds d in
  let D2 := fold_left stack (d :: ds) D in
  OrderedDict.keys (fst D2) = OrderedDict.keys (fst D) /\
  (forall k c, OrderedDict.get k (fst D) = Some c ->
               OrderedDict.get k (fst D2) = Some (hstack1 c c)) /\
  hstack2 (snd D) (snd D) = Some (snd D2).
Proof.
  intros Hc D D2. repeat split.
  - unfold D2. now rewrite keys_fold_stack.
  - intros k c Hk.
    assert (Hin : In k (OrderedDict.keys (fst D)))
      by now apply OrderedDictFacts.get_Some_In in Hk.
    unfold D2. rewrite column_fold_stack by assumption.
    unfold column at 1. rewrite Hk.
    unfold D in Hin, Hk. rewrite keys_fold_stack in Hin.
    rewrite column_fold_stack in Hk by assumption.
    inversion Hk. reflexivity.
  - rewrite NumpyFacts.hstack2_same_shape0 by reflexivity. f_equal.
    assert (Hs : slices (snd D2) = zip_app (slices (snd D)) (slices (snd D))).
    { unfold D2. rewrite slices_fold_stack. simpl.
      rewrite fold_zip_app. f_equal.
      unfold D. now rewrite slices_fold_stack. }
    assert (Ha : axis1 (snd D2) = axis1 (snd D) + axis1 (snd D)).
    { pose proof (events_fold_stack (d :: ds) D) as E2.
      pose proof (events_fold_stack ds d) as E1.
      fold D2 in E2. fold D in E1. unfold events, shape1 in *.
      simpl in E2. lia. }
    destruct (snd D2) as [n sl]. simpl in *. now rewrite Hs, Ha.
Qed.

End AgainFacts.

(** ** The registries under a caller's calls *)
Section RegistryFacts.

Context {val : Type}.
Variable extract : string -> OrderedDict.t string -> OrderedDict.t bool ->
                   exn + dataset val.

Implicit Types (w : world val) (cs : list call) (name : string).

Lemma add_observable_self name definition required w :
  fst (snd (add_observable name definition required w)) =
  set_observables_required
    (OrderedDict.set name required (observables_required (fst w)))
    (set_observables
       (OrderedDict.set name definition (observables (fst w))) (fst w)).
Proof. now destruct required. Qed.

Lemma analyse_lhe_samples_registration w :
  let p' := fst (snd (analyse_lhe_samples extract w)) in
  lhe_sample_filenames p' = lhe_sample_filenames (fst w) /\
  observables p' = observables (fst w) /\
  observables_required p' = observables_required (fst w).
Proof.
  rewrite analyse_lhe_samples_loop. apply running_registration.
Qed.

(** What one call does to the two registries. *)
Lemma perform_registries (c : call) w :
  let p' := fst (snd (perform extract c w)) in
  match c with
  | Call_add_observable name definition required =>
      observables p'
      = OrderedDict.set name definition (observables (fst w)) /\
      observables_required p'
      = OrderedDict.set name required (observables_required (fst w))
  | _ =>
      observables p' = observables (fst w) /\
      observables_required p' = observables_required (fst w)
  end.
Proof.
  destruct c as [filename|name definition required|]; simpl.
  - split; reflexivity.
  - rewrite add_observable_self. split; reflexivity.
  - apply analyse_lhe_samples_registration.
Qed.

Lemma session_app cs (c : call) w :
  session extract (cs ++ [c]) w
  = snd (perform extract c (session extract cs w)).
Proof.
  revert w. induction cs as [|c0 cs IH]; intros w; simpl; [reflexivity|].
  apply IH.
Qed.

(** The two registries have the same keys in the same order, and the keys
    are distinct. *)
Lemma session_keys cs w :
  OrderedDict.keys (observables (fst w))
  = OrderedDict.keys (observables_required (fst w)) ->
  OrderedDict.wf (observables (fst w)) = true ->
  let p' := fst (session extract cs w) in
  OrderedDict.keys (observables p')
  = OrderedDict.keys (observables_required p') /\
  OrderedDict.wf (observables p') = true.
Proof.
  revert w. induction cs as [|c cs IH]; intros w Hk Hwf; simpl; [auto|].
  apply IH; pose proof (perform_registries c w) as H; simpl in H;
    destruct c as [filename|name definition required|];
    destruct H as [H1 H2]; rewrite H1; try rewrite H2; try assumption.
  - rewrite !OrderedDictFacts.keys_set, Hk.
    now destruct (OrderedDict.mem name
                    (OrderedDict.keys (observables_required (fst w)))).
  - now apply OrderedDictFacts.wf_set.
Qed.

(** Each registry maps a name to what its last registration gave. *)
Lemma session_lookup cs w name :
  let p' := fst (session extract cs w) in
  OrderedDict.get name (observables p') =
  match last_registration name (registrations cs) with
  | Some r => Some (fst r)
  | None => OrderedDict.get name (observables (fst w))
  end /\
  OrderedDict.get name (observables_required p') =
  match last_registration name (registrations cs) with
  | Some r => Some (snd r)
  | None => OrderedDict.get name (observables_required (fst w))
  end.
Proof.
  revert w. induction cs as [|c cs IH]; intros w; simpl; [auto|].
  specialize (IH (snd (perform extract c w))). simpl in IH.
  destruct IH as [IH1 IH2]. rewrite IH1, IH2. clear IH1 IH2.
  pose proof (perform_registries c w) as H. simpl in H.
  destruct c as [filename|n definition required|];
    destruct H as [H1 H2]; rewrite H1, H2; simpl; [auto| |auto].
  destruct (last_registration name (registrations cs)); [auto|].
  destruct (String.eqb_spec name n) as [->|Hne]; simpl.
  - now rewrite !OrderedDictFacts.get_set_same.
  - rewrite !OrderedDictFacts.get_set_other by congruence. auto.
Qed.

End RegistryFacts.

(** * The claims *)

(** C1.  A run reaches sample [f] after the samples before it were merged.
    If the sample's weight-variation count (axis 0 of its weight array)
    differs from that of the merged weights held so far, the run raises the
    ValueError of line 97, the specification's ConsistencyError, carrying
    the merged count and the sample's count; nothing of the sample is
    written. *)
Theorem C1_weight_count_mismatch_raises
    (val : Type)
    (extract : string -> OrderedDict.t string -> OrderedDict.t bool ->
               exn + dataset val)
    (p p1 : LHEProcessor val) (log log1 : list log_record)
    (pre post : list string) (f : string)
    (merged_weights : array2 val) (this : dataset val) :
  lhe_sample_filenames p = pre ++ f :: post ->
  analyse_loop extract pre (p, log) = (inr tt, (p1, log1)) ->
  weights p1 = Some merged_weights ->
  sample extract p f = inr this ->
  weight_variations merged_weights <> weight_variations (snd this) ->
  analyse_lhe_samples extract (p, log) =
  (inl (ValueError_weights (weight_variations merged_weights)
                           (weight_variations (snd this))),
   (p1, log1 ++ [Analysing_LHE_sample f]))
  /\ is_ConsistencyError
       (ValueError_weights (weight_variations merged_weights)
                           (weight_variations (snd this))) = true.
Proof.
  intros Hfiles Hpre Hw Hs Hne. split; [|reflexivity].
  rewrite analyse_lhe_samples_loop. simpl. rewrite Hfiles.
  apply running_stops with (w1 := (p1, log1)); [assumption|].
  apply analysing_weights_mismatch; try assumption.
  pose proof (running_sample extract pre (p, log) f) as E.
  rewrite Hpre in E. simpl in E. now rewrite E.
Qed.

Lemma C1_witness :
  let w := Example.registered ["a.lhe"; "c.lhe"]%string in
  weight_variations (snd Example.sample_a)
  <> weight_variations (snd Example.sample_c) /\
  analyse_lhe_samples Example.extract w =
  (inl (ValueError_weights 1 2),
   (holding Example.sample_a (fst w),
    snd w ++ [Analysing_LHE_sample "a.lhe";
              Analysing_LHE_sample "c.lhe"]%string)).
Proof.
  split; [discriminate|].
  apply (C1_weight_count_mismatch_raises nat Example.extract
           (fst (Example.registered ["a.lhe"; "c.lhe"]%string))
           (holding Example.sample_a
              (fst (Example.registered ["a.lhe"; "c.lhe"]%string)))
           (snd (Example.registered ["a.lhe"; "c.lhe"]%string))
           (snd (Example.registered ["a.lhe"; "c.lhe"]%string)
            ++ [Analysing_LHE_sample "a.lhe"]%string)
           ["a.lhe"%string] [] "c.lhe"%string
           (snd Example.sample_a) Example.sample_c);
    solve [reflexivity | discriminate].
Defined.

(** C7.  Whatever the extraction of sample [f] raises (a FormatError, an
    IOError, anything else) is what the run raises: the loop has no handler.
    The samples before [f] stay merged, [f] and the samples after it
    contribute nothing. *)
Theorem C7_parser_error_propagates
    (val : Type)
    (extract : string -> OrderedDict.t string -> OrderedDict.t bool ->
               exn + dataset val)
    (p p1 : LHEProcessor val) (log log1 : list log_record)
    (pre post : list string) (f : string) (e : exn) :
  lhe_sample_filenames p = pre ++ f :: post ->
  analyse_loop extract pre (p, log) = (inr tt, (p1, log1)) ->
  sample extract p f = inl e ->
  analyse_lhe_samples extract (p, log) =
  (inl e, (p1, log1 ++ [Analysing_LHE_sample f])).
Proof.
  intros Hfiles Hpre Hs.
  rewrite analyse_lhe_samples_loop. simpl. rewrite Hfiles.
  apply running_stops with (w1 := (p1, log1)); [assumption|].
  apply analysing_raise.
  pose proof (running_sample extract pre (p, log) f) as E.
  rewrite Hpre in E. simpl in E. now rewrite E.
Qed.

Lemma C7_witness :
  let w := Example.registered ["a.lhe"; "broken.lhe"; "b.lhe"]%string in
  analyse_lhe_samples Example.extract w =
  (inl (FormatError "unbalanced event markers"),
   (holding Example.sample_a (fst w),
    snd w ++ [Analysing_LHE_sample "a.lhe";
              Analysing_LHE_sample "broken.lhe"]%string))
  /\
  let w := Example.registered ["missing.lhe"]%string in
  analyse_lhe_samples Example.extract w =
  (inl (IOError "missing.lhe"),
   (fst w, snd w ++ [Analysing_LHE_sample "missing.lhe"]%string)).
Proof.
  split.
  - apply (C7_parser_error_propagates nat Example.extract
             (fst (Example.registered
                     ["a.lhe"; "broken.lhe"; "b.lhe"]%string))
             (holding Example.sample_a
                (fst (Example.registered
                        ["a.lhe"; "broken.lhe"; "b.lhe"]%string)))
             (snd (Example.registered
                     ["a.lhe"; "broken.lhe"; "b.lhe"]%string))
             (snd (Example.registered
                     ["a.lhe"; "broken.lhe"; "b.lhe"]%string)
              ++ [Analysing_LHE_sample "a.lhe"]%string)
             ["a.lhe"%string] ["b.lhe"%string] "broken.lhe"%string
             (FormatError "unbalanced event markers"));
      reflexivity.
  - apply (C7_parser_error_propagates nat Example.extract
             (fst (Example.registered ["missing.lhe"]%string))
             (fst (Example.registered ["missing.lhe"]%string))
             (snd (Example.registered ["missing.lhe"]%string))
             (snd (Example.registered ["missing.lhe"]%string))
             [] [] "missing.lhe"%string (IOError "missing.lhe"));
      reflexivity.
Defined.

(** C3.  A run reaches sample [f] after the samples before it were merged.
    If the sample's table has another number of keys than the merged table,
    the run raises a ValueError (the specification's ConsistencyError): the
    one of line 97 if the weight counts differ too, else the one of line 101
    with the two key counts.  If a key of the merged table is missing from
    the sample's table, the run raises as well; when both counts agree it is
    the assertion of line 108 on the first such key.  No column is filled in
    for a missing key. *)
Theorem C3_key_mismatch_raises
    (val : Type)
    (extract : string -> OrderedDict.t string -> OrderedDict.t bool ->
               exn + dataset val)
    (p p1 : LHEProcessor val) (log log1 : list log_record)
    (pre post : list string) (f : string)
    (o : table val) (w : array2 val) (this : dataset val) :
  lhe_sample_filenames p = pre ++ f :: post ->
  analyse_loop extract pre (p, log) = (inr tt, (p1, log1)) ->
  observations p1 = Some o ->
  weights p1 = Some w ->
  sample extract p f = inr this ->
  (OrderedDict.len o <> OrderedDict.len (fst this) ->
   exists e,
     is_ConsistencyError e = true /\
     (shape0 w = shape0 (snd this) ->
      e = ValueError_observations (OrderedDict.len o)
                                  (OrderedDict.len (fst this))) /\
     analyse_lhe_samples extract (p, log) =
     (inl e, (p1, log1 ++ [Analysing_LHE_sample f])))
  /\
  (forall k, In k (OrderedDict.keys o) ->
             OrderedDict.contains k (fst this) = false ->
   exists e w',
     analyse_lhe_samples extract (p, log) = (inl e, w') /\
     (shape0 w = shape0 (snd this) ->
      OrderedDict.len o = OrderedDict.len (fst this) ->
      exists k0, first_missing (fst this) (OrderedDict.keys o) = Some k0 /\
                 e = AssertionError k0)).
Proof.
  intros Hfiles Hpre Ho Hw Hs.
  assert (Hs1 : sample extract p1 f = inr this).
  { pose proof (running_sample extract pre (p, log) f) as E.
    rewrite Hpre in E. simpl in E. now rewrite E. }
  assert (Hstop : forall e w',
    analyse_lhe_sample extract f (p1, log1) = (inl e, w') ->
    analyse_lhe_samples extract (p, log) = (inl e, w')).
  { intros e w' H. rewrite analyse_lhe_samples_loop. simpl. rewrite Hfiles.
    now apply running_stops with (w1 := (p1, log1)). }
  pose proof (analysing_outcome extract p1 log1 f) as H. simpl in H.
  rewrite Hs1, Hw, Ho in H.
  split.
  - intros Hlen.
    destruct (Nat.eqb_spec (shape0 w) (shape0 (snd this))) as [E1|E1].
    + apply Nat.eqb_neq in Hlen. rewrite Hlen in H.
      eexists. split; [|split; [intros _; reflexivity | apply Hstop; exact H]].
      reflexivity.
    + eexists. split; [|split; [intros E; contradiction | apply Hstop; exact H]].
      reflexivity.
  - intros k Hk Hmiss.
    destruct (Nat.eqb_spec (shape0 w) (shape0 (snd this))) as [E1|E1];
      [|do 2 eexists; split; [apply Hstop; exact H | intros E; contradiction]].
    destruct (Nat.eqb_spec (OrderedDict.len o) (OrderedDict.len (fst this)))
      as [E2|E2];
      [|do 2 eexists; split; [apply Hstop; exact H | intros _ E; contradiction]].
    destruct H as (o' & _ & H).
    destruct (first_missing (fst this) (OrderedDict.keys o)) as [k0|] eqn:E3.
    + do 2 eexists. split; [apply Hstop; exact H|].
      intros _ _. now exists k0.
    + exfalso. unfold first_missing in E3.
      apply (find_none _ _ E3) in Hk. now rewrite Hmiss in Hk.
Qed.

Lemma C3_witness :
  (exists e,
     is_ConsistencyError e = true /\
     (1 = 1 -> e = ValueError_observations 2 1) /\
     analyse_lhe_samples Example.extract
       (Example.registered ["a.lhe"; "d.lhe"]%string) =
     (inl e,
      (holding Example.sample_a
         (fst (Example.registered ["a.lhe"; "d.lhe"]%string)),
       snd (Example.registered ["a.lhe"; "d.lhe"]%string)
       ++ [Analysing_LHE_sample "a.lhe";
           Analysing_LHE_sample "d.lhe"]%string)))
  /\
  (exists e w',
     analyse_lhe_samples Example.extract
       (Example.registered ["a.lhe"; "e.lhe"]%string) = (inl e, w') /\
     (1 = 1 -> 2 = 2 ->
      exists k0,
        first_missing (fst Example.sample_e) ["E"; "pt1"]%string = Some k0 /\
        e = AssertionError k0)).
Proof.
  split.
  - apply (C3_key_mismatch_raises nat Example.extract
             (fst (Example.registered ["a.lhe"; "d.lhe"]%string))
             (holding Example.sample_a
                (fst (Example.registered ["a.lhe"; "d.lhe"]%string)))
             (snd (Example.registered ["a.lhe"; "d.lhe"]%string))
             (snd (Example.registered ["a.lhe"; "d.lhe"]%string)
              ++ [Analysing_LHE_sample "a.lhe"]%string)
             ["a.lhe"%string] [] "d.lhe"%string
             (fst Example.sample_a) (snd Example.sample_a) Example.sample_d);
      solve [reflexivity | discriminate].
  - apply (C3_key_mismatch_raises nat Example.extract
             (fst (Example.registered ["a.lhe"; "e.lhe"]%string))
             (holding Example.sample_a
                (fst (Example.registered ["a.lhe"; "e.lhe"]%string)))
             (snd (Example.registered ["a.lhe"; "e.lhe"]%string))
             (snd (Example.registered ["a.lhe"; "e.lhe"]%string)
              ++ [Analysing_LHE_sample "a.lhe"]%string)
             ["a.lhe"%string] [] "e.lhe"%string
             (fst Example.sample_a) (snd Example.sample_a) Example.sample_e
             eq_refl eq_refl eq_refl eq_refl eq_refl) with (k := "pt1"%string).
    + simpl. tauto.
    + reflexivity.
Defined.

(** C2, as stated, fails.  With [a.lhe] (one weight variation) and [c.lhe]
    (two) registered, the run raises the ValueError of line 97 and the
    object still holds the Dataset of [a.lhe]: nothing resets
    [observations] and [weights]. *)
Lemma C2_counterexample :
  analyse_lhe_samples Example.extract
    (Example.registered ["a.lhe"; "c.lhe"]%string)
  = (inl (ValueError_weights 1 2),
     (holding Example.sample_a
        (fst (Example.registered ["a.lhe"; "c.lhe"]%string)),
      snd (Example.registered ["a.lhe"; "c.lhe"]%string)
      ++ [Analysing_LHE_sample "a.lhe";
          Analysing_LHE_sample "c.lhe"]%string))
  /\ ~ discards_on_abort Example.extract
         (Example.registered ["a.lhe"; "c.lhe"]%string).
Proof.
  split; [reflexivity|].
  intros H.
  destruct (H _ _ eq_refl) as [Ho _]. discriminate Ho.
Qed.

(** C2, amended.  A run that raises stopped at one sample [f]; the error goes
    to the caller.  If the error is what the extraction of [f] raised,
    whatever its class, or if it is anything but the assertion of line 108,
    the object is exactly as the samples before [f] left it: their merged
    Dataset is kept, not discarded, and nothing of [f] is in it. *)
Theorem C2_abort_keeps_earlier_samples
    (val : Type)
    (extract : string -> OrderedDict.t string -> OrderedDict.t bool ->
               exn + dataset val)
    (p p' : LHEProcessor val) (log log' : list log_record) (e : exn) :
  analyse_lhe_samples extract (p, log) = (inl e, (p', log')) ->
  exists pre f post p1 log1,
    lhe_sample_filenames p = pre ++ f :: post /\
    analyse_loop extract pre (p, log) = (inr tt, (p1, log1)) /\
    log' = log1 ++ [Analysing_LHE_sample f] /\
    (sample extract p f = inl e \/ is_AssertionError e = false -> p' = p1).
Proof.
  rewrite analyse_lhe_samples_loop. simpl. intros H.
  apply running_raise_inv in H as (pre & f & post & [p1 log1] & Hf & Hpre & Hs).
  apply analysing_raise_origin in Hs as [Hlog Hself]. simpl in *.
  exists pre, f, post, p1, log1. repeat split; try assumption.
  intros Horigin. apply Hself.
  pose proof (running_sample extract pre (p, log) f) as E.
  rewrite Hpre in E. simpl in E. now rewrite E.
Qed.

Lemma C2_witness :
  (exists pre post p1 log1,
     ["a.lhe"; "c.lhe"]%string = pre ++ "c.lhe"%string :: post /\
     analyse_loop Example.extract pre
       (Example.registered ["a.lhe"; "c.lhe"]%string)
     = (inr tt, (p1, log1)) /\
     is_AssertionError (ValueError_weights 1 2) = false /\
     holding Example.sample_a
       (fst (Example.registered ["a.lhe"; "c.lhe"]%string)) = p1)
  /\
  (exists pre post p1 log1,
     ["a.lhe"; "assert.lhe"; "b.lhe"]%string
     = pre ++ "assert.lhe"%string :: post /\
     analyse_loop ExampleRaising.extract pre
       (Example.registered ["a.lhe"; "assert.lhe"; "b.lhe"]%string)
     = (inr tt, (p1, log1)) /\
     sample ExampleRaising.extract
       (fst (Example.registered ["a.lhe"; "assert.lhe"; "b.lhe"]%string))
       "assert.lhe"%string
     = inl (AssertionError "no particles") /\
     holding Example.sample_a
       (fst (Example.registered ["a.lhe"; "assert.lhe"; "b.lhe"]%string))
     = p1).
Proof.
  split.
  - destruct (C2_abort_keeps_earlier_samples nat Example.extract
             (fst (Example.registered ["a.lhe"; "c.lhe"]%string))
             (holding Example.sample_a
                (fst (Example.registered ["a.lhe"; "c.lhe"]%string)))
             (snd (Example.registered ["a.lhe"; "c.lhe"]%string))
             ([Adding_required_observable "E" "p[0].e";
               Adding_not_required_observable "pt1" "p[1].pt";
               Adding_LHE_sample "a.lhe"; Adding_LHE_sample "c.lhe";
               Analysing_LHE_sample "a.lhe"]%string
              ++ [Analysing_LHE_sample "c.lhe"%string])
             (ValueError_weights 1 2) eq_refl)
      as (pre & f & post & p1 & log1 & Hfiles & Hpre & Hlog & Hkeep).
    apply app_inj_tail in Hlog as [_ Hf]. injection Hf as <-.
    exists pre, post, p1, log1.
    split; [exact Hfiles|]. split; [exact Hpre|]. split; [reflexivity|].
    apply Hkeep. right. reflexivity.
  - destruct (C2_abort_keeps_earlier_samples nat ExampleRaising.extract
             (fst (Example.registered
                     ["a.lhe"; "assert.lhe"; "b.lhe"]%string))
             (holding Example.sample_a
                (fst (Example.registered
                        ["a.lhe"; "assert.lhe"; "b.lhe"]%string)))
             (snd (Example.registered
                     ["a.lhe"; "assert.lhe"; "b.lhe"]%string))
             ([Adding_required_observable "E" "p[0].e";
               Adding_not_required_observable "pt1" "p[1].pt";
               Adding_LHE_sample "a.lhe"; Adding_LHE_sample "assert.lhe";
               Adding_LHE_sample "b.lhe";
               Analysing_LHE_sample "a.lhe"]%string
              ++ [Analysing_LHE_sample "assert.lhe"%string])
             (AssertionError "no particles") eq_refl)
      as (pre & f & post & p1 & log1 & Hfiles & Hpre & Hlog & Hkeep).
    apply app_inj_tail in Hlog as [_ Hf]. injection Hf as <-.
    exists pre, post, p1, log1.
    split; [exact Hfiles|]. split; [exact Hpre|]. split; [reflexivity|].
    apply Hkeep. left. reflexivity.
Defined.

(** C4, as stated, fails.  A fresh object with two observables and no sample
    file registered: the run returns, and [observations] and [weights] are
    still [None]; there is no table, hence no key bound to an empty
    column. *)
Lemma C4_counterexample :
  analyse_lhe_samples Example.extract (Example.registered [])
  = (inr tt, Example.registered [])
  /\ observations (fst (Example.registered [])) = None
  /\ weights (fst (Example.registered [])) = None
  /\ OrderedDict.keys (observables (fst (Example.registered [])))
     = ["E"; "pt1"]%string
  /\ ~ yields_empty_dataset Example.extract (Example.registered []).
Proof.
  repeat split.
  intros (w' & o & ws & Hrun & Ho & _).
  inversion Hrun; subst. discriminate Ho.
Qed.

(** C4, amended.  With no sample file registered the run returns without
    raising and without touching the object or the log.  On an object that
    has merged nothing, [observations] and [weights] are therefore still
    [None] afterwards, whatever observables are registered. *)
Theorem C4_no_samples_no_change
    (val : Type)
    (extract : string -> OrderedDict.t string -> OrderedDict.t bool ->
               exn + dataset val)
    (p : LHEProcessor val) (log : list log_record) :
  lhe_sample_filenames p = [] ->
  analyse_lhe_samples extract (p, log) = (inr tt, (p, log))
  /\ (nothing_merged p ->
      forall w', analyse_lhe_samples extract (p, log) = (inr tt, w') ->
                 merged (fst w') = None).
Proof.
  intros H.
  assert (E : analyse_lhe_samples extract (p, log) = (inr tt, (p, log))).
  { rewrite analyse_lhe_samples_loop. simpl. now rewrite H. }
  split; [exact E|].
  intros [Ho Hw] w' Hrun. rewrite E in Hrun. inversion Hrun. simpl.
  unfold merged. now rewrite Ho.
Qed.

Lemma C4_witness :
  analyse_lhe_samples Example.extract (Example.registered [])
  = (inr tt, Example.registered [])
  /\ (nothing_merged (fst (Example.registered [])) ->
      forall w',
        analyse_lhe_samples Example.extract (Example.registered [])
        = (inr tt, w') ->
        merged (fst w') = None).
Proof.
  apply (C4_no_samples_no_change nat Example.extract
           (fst (Example.registered [])) (snd (Example.registered []))).
  reflexivity.
Defined.

(** C5.  Let the object hold either nothing or a well-formed Dataset with the
    shape invariant, and let every registered sample that extracts be a
    well-formed Dataset with the shape invariant (each column as long as
    the weight array has events).  After a run that returns, the object
    again holds nothing or a well-formed Dataset in which every column is as
    long as the merged weights have events; it holds a Dataset if a sample
    file was registered. *)
Theorem C5_shape_invariant_preserved
    (val : Type)
    (extract : string -> OrderedDict.t string -> OrderedDict.t bool ->
               exn + dataset val)
    (p p' : LHEProcessor val) (log log' : list log_record) :
  merged_sound p ->
  samples_well_formed extract p (lhe_sample_filenames p) ->
  samples_shape_invariant extract p (lhe_sample_filenames p) ->
  analyse_lhe_samples extract (p, log) = (inr tt, (p', log')) ->
  merged_sound p' /\
  (lhe_sample_filenames p <> [] ->
   exists o w,
     merged p' = Some (o, w) /\
     forall k c, OrderedDict.get k o = Some c -> length c = events w).
Proof.
  rewrite analyse_lhe_samples_loop. simpl.
  intros Hp Hwf Hsh Hrun.
  assert (Hcols : forall d, sound d ->
    exists o w, merged (holding d p) = Some (o, w) /\
      forall k c, OrderedDict.get k o = Some c -> length c = events w).
  { intros [o w] [_ Hs]. exists o, w. split; [reflexivity|].
    intros k c Hk. unfold shape_invariant in Hs. simpl in Hs.
    rewrite forallb_forall in Hs.
    assert (Hin : In (k, c) o).
    { clear - Hk. induction o as [|[k0 c0] o IH]; simpl in *; [discriminate|].
      destruct (String.eqb_spec k k0) as [->|];
        [inversion Hk; now left | right; auto]. }
    apply Hs in Hin. now apply Nat.eqb_eq in Hin. }
  unfold merged_sound in Hp.
  destruct (observations p) as [o|] eqn:Ho, (weights p) as [w|] eqn:Hw;
    try contradiction.
  - (* a Dataset is held already *)
    assert (Hk : OrderedDict.wf o = true).
    { destruct Hp as [Hp _]. now apply andb_true_iff in Hp as [Hp _]. }
    destruct (running_returns extract _ p log (o, w) _ Ho Hw Hk Hrun)
      as (ds & Hex & Hc).
    rewrite (running_compatible extract _ ds p log (o, w)) in Hrun
      by assumption.
    inversion Hrun; subst.
    assert (Hsound : sound (fold_left stack ds (o, w))).
    { apply sound_fold_stack; [exact Hp | | exact Hc].
      now apply (extracts_sound extract p (lhe_sample_filenames p)). }
    split; [now apply merged_sound_holding | intros _; now apply Hcols].
  - (* nothing is held *)
    destruct (lhe_sample_filenames p) as [|f files] eqn:Hfiles.
    + inversion Hrun; subst. split; [|congruence].
      unfold merged_sound. now rewrite Ho, Hw.
    + destruct (running_fresh extract f files p log _ (conj Ho Hw) Hwf Hrun)
        as (d & ds & Hd & Hex & Hc & E).
      inversion E; subst.
      assert (Hsound : sound (fold_left stack ds d)).
      { apply sound_fold_stack; [| | exact Hc].
        - split; [apply (Hwf f) | apply (Hsh f)]; simpl; auto.
        - apply (extracts_sound extract p files); [| |exact Hex];
            intros g x Hg; [apply Hwf | apply Hsh]; simpl; auto. }
      split; [now apply merged_sound_holding | intros _; now apply Hcols].
Qed.

Lemma C5_witness :
  let w := Example.registered ["a.lhe"; "b.lhe"]%string in
  merged_sound (fst (snd (analyse_lhe_samples Example.extract w))) /\
  (["a.lhe"; "b.lhe"]%string <> [] ->
   exists o ws,
     merged (fst (snd (analyse_lhe_samples Example.extract w)))
     = Some (o, ws) /\
     forall k c, OrderedDict.get k o = Some c -> length c = events ws).
Proof.
  apply (C5_shape_invariant_preserved nat Example.extract
           (fst (Example.registered ["a.lhe"; "b.lhe"]%string))
           (fst (snd (analyse_lhe_samples Example.extract
                        (Example.registered ["a.lhe"; "b.lhe"]%string))))
           (snd (Example.registered ["a.lhe"; "b.lhe"]%string))
           (snd (snd (analyse_lhe_samples Example.extract
                        (Example.registered ["a.lhe"; "b.lhe"]%string))))).
  - exact I.
  - intros f d [<-|[<-|[]]] H; inversion H; reflexivity.
  - intros f d [<-|[<-|[]]] H; inversion H; reflexivity.
  - reflexivity.
Defined.

(** C6.  [add_lhe_sample] appends the file name at the end of the list,
    whether or not the name is in it already.  A run from the state in which
    nothing is merged that returns has analysed the registered file names one
    by one in the order of the list, a repeated name as often as it is
    listed; the merged table has the keys of the first sample, and each of
    its columns, each slice of the merged weights and the event count are
    the samples' columns, slices and event counts put one after the other
    in that order. *)
Theorem C6_registration_order
    (val : Type)
    (extract : string -> OrderedDict.t string -> OrderedDict.t bool ->
               exn + dataset val) :
  (forall (p : LHEProcessor val) log filename,
     add_lhe_sample filename (p, log) =
     (inr tt,
      (set_lhe_sample_filenames (lhe_sample_filenames p ++ [filename]) p,
       log ++ [Adding_LHE_sample filename])))
  /\
  (forall (p p' : LHEProcessor val) log log',
     nothing_merged p ->
     samples_well_formed extract p (lhe_sample_filenames p) ->
     analyse_lhe_samples extract (p, log) = (inr tt, (p', log')) ->
     log' = log ++ map Analysing_LHE_sample (lhe_sample_filenames p) /\
     match lhe_sample_filenames p with
     | [] => p' = p
     | first :: _ =>
         exists o w,
           observations p' = Some o /\ weights p' = Some w /\
           OrderedDict.keys o = sample_keys extract p first /\
           (forall k, In k (OrderedDict.keys o) ->
              OrderedDict.get k o =
              Some (concat (map (sample_column extract p k)
                                (lhe_sample_filenames p)))) /\
           (forall i, nth i (slices w) [] =
                      concat (map (sample_slice extract p i)
                                  (lhe_sample_filenames p))) /\
           events w = list_sum (map (sample_events extract p)
                                    (lhe_sample_filenames p))
     end).
Proof.
  split; [reflexivity|].
  intros p p' log log' Hfresh Hwf. rewrite analyse_lhe_samples_loop. simpl.
  intros Hrun. split.
  - now apply running_log in Hrun.
  - destruct (lhe_sample_filenames p) as [|f files].
    + now inversion Hrun.
    + destruct (running_fresh extract f files p log _ Hfresh Hwf Hrun)
        as (d & ds & Hd & Hex & Hc & E).
      inversion E; subst.
      exists (fst (fold_left stack ds d)), (snd (fold_left stack ds d)).
      split; [reflexivity|]. split; [reflexivity|].
      now apply fresh_fold_contents.
Qed.

Lemma C6_witness :
  let w := Example.registered ["b.lhe"; "a.lhe"; "b.lhe"]%string in
  let w' := snd (analyse_lhe_samples Example.extract w) in
  snd w' = snd w ++ [Analysing_LHE_sample "b.lhe";
                     Analysing_LHE_sample "a.lhe";
                     Analysing_LHE_sample "b.lhe"]%string /\
  exists o ws,
    observations (fst w') = Some o /\ weights (fst w') = Some ws /\
    OrderedDict.keys o = ["E"; "pt1"]%string /\
    (forall k, In k (OrderedDict.keys o) ->
       OrderedDict.get k o =
       Some (concat (map (sample_column Example.extract (fst w) k)
                         ["b.lhe"; "a.lhe"; "b.lhe"]%string))) /\
    (forall i, nth i (slices ws) [] =
       concat (map (sample_slice Example.extract (fst w) i)
                   ["b.lhe"; "a.lhe"; "b.lhe"]%string)) /\
    events ws = 8.
Proof.
  apply (proj2 (C6_registration_order nat Example.extract)
           (fst (Example.registered ["b.lhe"; "a.lhe"; "b.lhe"]%string))
           (fst (snd (analyse_lhe_samples Example.extract
                        (Example.registered
                           ["b.lhe"; "a.lhe"; "b.lhe"]%string))))
           (snd (Example.registered ["b.lhe"; "a.lhe"; "b.lhe"]%string))
           (snd (snd (analyse_lhe_samples Example.extract
                        (Example.registered
                           ["b.lhe"; "a.lhe"; "b.lhe"]%string))))).
  - split; reflexivity.
  - intros f d [<-|[<-|[<-|[]]]] H; inversion H; reflexivity.
  - reflexivity.
Defined.

(** C9.  Take a run from the state in which nothing is merged that returns,
    with the extraction a function of the file name and the registries.
    Calling [analyse_lhe_samples] again returns as well, analyses every
    registered file name once more, and stacks the samples onto the Dataset
    already held.  The table then has the keys of the first sample; each of
    its columns is the samples' columns in the order of the file names
    followed by the same columns in the same order once more, each weight
    slice likewise, and the event count is twice the samples' total: every
    retained event is there twice.  Against the first call, every column has
    become itself followed by itself and the weights [np.hstack] of
    themselves with themselves; with at least one retained event the object
    after the second call differs from the object after the first. *)
Theorem C9_second_run_appends
    (val : Type)
    (extract : string -> OrderedDict.t string -> OrderedDict.t bool ->
               exn + dataset val)
    (p p1 : LHEProcessor val) (log log1 : list log_record) :
  nothing_merged p ->
  samples_well_formed extract p (lhe_sample_filenames p) ->
  analyse_lhe_samples extract (p, log) = (inr tt, (p1, log1)) ->
  exists p2 log2,
    analyse_lhe_samples extract (p1, log1) = (inr tt, (p2, log2)) /\
    log2 = log1 ++ map Analysing_LHE_sample (lhe_sample_filenames p) /\
    (lhe_sample_filenames p <> [] -> merged p1 <> None) /\
    (forall o1 w1, merged p1 = Some (o1, w1) ->
       exists o2 w2,
         merged p2 = Some (o2, w2) /\
         OrderedDict.keys o2 = OrderedDict.keys o1 /\
         (forall k c, OrderedDict.get k o1 = Some c ->
                      OrderedDict.get k o2 = Some (hstack1 c c)) /\
         hstack2 w1 w1 = Some w2 /\
         (0 < events w1 -> p2 <> p1) /\
         OrderedDict.keys o2 =
         match lhe_sample_filenames p with
         | first :: _ => sample_keys extract p first
         | [] => []
         end /\
         (forall k, In k (OrderedDict.keys o2) ->
            OrderedDict.get k o2 =
            Some (concat (map (sample_column extract p k)
                              (lhe_sample_filenames p
                               ++ lhe_sample_filenames p)))) /\
         (forall i,
            nth i (slices w2) [] =
            concat (map (sample_slice extract p i)
                        (lhe_sample_filenames p ++ lhe_sample_filenames p)))
         /\
         events w2 =
         list_sum (map (sample_events extract p)
                       (lhe_sample_filenames p ++ lhe_sample_filenames p))).
Proof.
  intros Hfresh Hwf Hrun.
  rewrite analyse_lhe_samples_loop in Hrun. simpl in Hrun.
  destruct (lhe_sample_filenames p) as [|f files] eqn:Hfiles.
  - inversion Hrun; subst p1 log1.
    exists p, log. rewrite analyse_lhe_samples_loop. simpl. rewrite Hfiles.
    split; [reflexivity|]. split; [now rewrite app_nil_r|].
    split; [congruence|].
    intros o1 w1 H. destruct Hfresh as [Ho _]. unfold merged in H.
    rewrite Ho in H. discriminate.
  - destruct (running_fresh extract f files p log _ Hfresh Hwf Hrun)
      as (d & ds & Hd & Hex & Hc & E).
    inversion E; subst p1 log1. clear E.
    set (D := fold_left stack ds d) in *.
    assert (HwfD : OrderedDict.wf (fst D) = true).
    { unfold D. rewrite wf_fold_stack.
      specialize (Hwf f d (or_introl eq_refl) Hd).
      now apply andb_true_iff in Hwf as [Hwf _]. }
    assert (Hc2 : forallb (compatible D) (d :: ds) = true).
    { unfold D. rewrite compatible_fold_all by assumption. simpl.
      now rewrite compatible_self, Hc. }
    assert (Hex2 : Forall2 (fun g x => sample extract (holding D p) g = inr x)
                           (f :: files) (d :: ds))
      by (constructor; assumption).
    pose proof (running_compatible extract (f :: files) (d :: ds)
                  (holding D p)
                  (log ++ map Analysing_LHE_sample (f :: files)) D
                  eq_refl eq_refl HwfD Hex2 Hc2) as Hrun2.
    set (D2 := fold_left stack (d :: ds) D) in *.
    exists (holding D2 (holding D p)),
           ((log ++ map Analysing_LHE_sample (f :: files))
            ++ map Analysing_LHE_sample (f :: files)).
    split; [|split; [reflexivity | split; [discriminate|]]].
    + rewrite analyse_lhe_samples_loop. simpl fst.
      replace (lhe_sample_filenames (holding D p)) with (f :: files)
        by (now rewrite <- Hfiles).
      exact Hrun2.
    + intros o1 w1 H. inversion H; subst o1 w1. clear H.
      destruct (fold_again d ds Hc) as (Hk & Hcol & Hst).
      fold D in Hk, Hcol, Hst. fold D2 in Hk, Hcol, Hst.
      destruct (fresh_fold_contents extract p f files d ds Hd Hex Hc)
        as (K1 & C1 & S1 & E1).
      fold D in K1, C1, S1, E1.
      pose proof Hst as Hst0.
      rewrite NumpyFacts.hstack2_same_shape0 in Hst0 by reflexivity.
      injection Hst0 as Hst0.
      exists (fst D2), (snd D2).
      split; [reflexivity|]. split; [exact Hk|]. split; [exact Hcol|].
      split; [exact Hst|].
      split; [|split; [|split; [|split]]].
      * intros Hev Heq.
        assert (Hw : weights (holding D2 (holding D p))
                     = weights (holding D p)) by now rewrite Heq.
        simpl in Hw. injection Hw as Hw.
        rewrite Hw in Hst0. apply (f_equal axis1) in Hst0. simpl in Hst0.
        unfold events, shape1 in Hev. lia.
      * rewrite Hk. exact K1.
      * intros k Hin. rewrite Hk in Hin.
        rewrite (Hcol k _ (C1 k Hin)). unfold hstack1.
        now rewrite map_app, concat_app.
      * intros i. rewrite map_app, concat_app, <- (S1 i), <- Hst0.
        now apply NumpyFacts.nth_zip_app.
      * rewrite map_app, list_sum_app, <- E1, <- Hst0. reflexivity.
Qed.

Lemma C9_witness :
  let w := Example.registered ["a.lhe"; "b.lhe"]%string in
  let w1 := snd (analyse_lhe_samples Example.extract w) in
  merged (fst w1) =
  Some ([("E", [10; 11; 20; 21; 22]); ("pt1", [1; 2; 3; 4; 5])]%string,
        {| axis1 := 5; slices := [[5; 6; 7; 8; 9]] |})
  /\
  exists p2 log2,
    analyse_lhe_samples Example.extract w1 = (inr tt, (p2, log2)) /\
    log2 = snd w1 ++ [Analysing_LHE_sample "a.lhe";
                      Analysing_LHE_sample "b.lhe"]%string /\
    merged p2 =
    Some ([("E", [10; 11; 20; 21; 22; 10; 11; 20; 21; 22]);
           ("pt1", [1; 2; 3; 4; 5; 1; 2; 3; 4; 5])]%string,
          {| axis1 := 10;
             slices := [[5; 6; 7; 8; 9; 5; 6; 7; 8; 9]] |}) /\
    p2 <> fst w1.
Proof.
  split; [reflexivity|].
  destruct (C9_second_run_appends nat Example.extract
           (fst (Example.registered ["a.lhe"; "b.lhe"]%string))
           (fst (snd (analyse_lhe_samples Example.extract
                        (Example.registered ["a.lhe"; "b.lhe"]%string))))
           (snd (Example.registered ["a.lhe"; "b.lhe"]%string))
           (snd (snd (analyse_lhe_samples Example.extract
                        (Example.registered ["a.lhe"; "b.lhe"]%string)))))
    as (p2 & log2 & Hrun & Hlog & _ & Hall).
  - split; reflexivity.
  - intros f d [<-|[<-|[]]] H; inversion H; reflexivity.
  - reflexivity.
  - destruct (Hall _ _ eq_refl)
      as (o2 & w2 & Hm & _ & _ & Hst & Hne & Hkeys & Hcols & _ & _).
    exists p2, log2.
    split; [exact Hrun|]. split; [exact Hlog|].
    split; [|apply Hne; simpl; lia].
    rewrite Hm. injection Hst as <-.
    destruct o2 as [|[k1 c1] [|[k2 c2] [|kc o2]]]; try discriminate Hkeys.
    injection Hkeys as -> ->.
    pose proof (Hcols "E"%string (or_introl eq_refl)) as HE.
    pose proof (Hcols "pt1"%string (or_intror (or_introl eq_refl))) as Hpt.
    injection HE as ->. injection Hpt as ->.
    reflexivity.
Defined.

(** C8.  Start from the constructor and make any calls.  Each registry then
    maps a name to the definition, respectively the required flag, of the
    last [add_observable] call made with that name, and to nothing if there
    was none; no name is held twice.  In particular one more
    [add_observable] call with a name leaves that name bound to the new
    definition and the new flag, once in each registry, and if the name was
    registered before, the keys and their order are as before. *)
Theorem C8_last_write_wins
    (val : Type)
    (extract : string -> OrderedDict.t string -> OrderedDict.t bool ->
               exn + dataset val)
    (debug : bool) (cs : list call) (name : string) :
  let p : LHEProcessor val := fst (session extract cs (__init__ debug, [])) in
  (OrderedDict.get name (observables p)
   = option_map fst (last_registration name (registrations cs)) /\
   OrderedDict.get name (observables_required p)
   = option_map snd (last_registration name (registrations cs)))
  /\
  (NoDup (OrderedDict.keys (observables p)) /\
   NoDup (OrderedDict.keys (observables_required p)))
  /\
  (forall definition required,
     let q : LHEProcessor val :=
       fst (session extract
              (cs ++ [Call_add_observable name definition required])
              (__init__ debug, [])) in
     OrderedDict.get name (observables q) = Some definition /\
     OrderedDict.get name (observables_required q) = Some required /\
     count_occ string_dec (OrderedDict.keys (observables q)) name = 1 /\
     count_occ string_dec (OrderedDict.keys (observables_required q)) name
     = 1 /\
     (In name (OrderedDict.keys (observables p)) ->
      OrderedDict.keys (observables q) = OrderedDict.keys (observables p))).
Proof.
  assert (Hnodup : forall cs',
    let p' : LHEProcessor val :=
      fst (session extract cs' (__init__ debug, [])) in
    NoDup (OrderedDict.keys (observables p')) /\
    NoDup (OrderedDict.keys (observables_required p'))).
  { intros cs'.
    destruct (session_keys extract cs' (__init__ debug, []) eq_refl eq_refl)
      as [Hk Hwf].
    simpl. rewrite <- Hk. apply OrderedDictFacts.distinct_NoDup in Hwf.
    now split. }
  simpl. split; [|split; [apply Hnodup|]].
  - destruct (session_lookup extract cs (__init__ debug, []) name) as [H1 H2].
    simpl in H1, H2. rewrite H1, H2.
    now destruct (last_registration name (registrations cs)).
  - intros definition required.
    destruct (Hnodup (cs ++ [Call_add_observable name definition required]))
      as [Hn1 Hn2].
    rewrite session_app in *. simpl in *.
    rewrite add_observable_self in *. simpl in *.
    set (w := session extract cs (__init__ debug, [])) in *.
    assert (G1 : OrderedDict.get name
                   (OrderedDict.set name definition (observables (fst w)))
                 = Some definition)
      by apply OrderedDictFacts.get_set_same.
    assert (G2 : OrderedDict.get name
                   (OrderedDict.set name required
                      (observables_required (fst w)))
                 = Some required)
      by apply OrderedDictFacts.get_set_same.
    repeat split; try assumption.
    + apply NoDup_count_occ'; [assumption|].
      now apply OrderedDictFacts.get_Some_In in G1.
    + apply NoDup_count_occ'; [assumption|].
      now apply OrderedDictFacts.get_Some_In in G2.
    + intros Hin. now apply OrderedDictFacts.keys_set_present.
Qed.

Lemma C8_witness :
  let cs := [Call_add_observable "E" "p[0].e" true;
             Call_add_lhe_sample "a.lhe";
             Call_add_observable "pt1" "p[1].pt" false;
             Call_analyse_lhe_samples;
             Call_add_observable "E" "p[0].pt" false]%string in
  let p := fst (session Example.extract cs (__init__ true, [])) in
  In "E"%string (OrderedDict.keys (observables p)) /\
  (observables p = [("E", "p[0].pt"); ("pt1", "p[1].pt")]%string /\
   observables_required p = [("E", false); ("pt1", false)]%string) /\
  forall definition required,
    let q :=
      fst (session Example.extract
             (cs ++ [Call_add_observable "E" definition required])
             (__init__ true, [])) in
    OrderedDict.get "E" (observables q) = Some definition /\
    OrderedDict.get "E" (observables_required q) = Some required /\
    count_occ string_dec (OrderedDict.keys (observables q)) "E"%string = 1 /\
    count_occ string_dec (OrderedDict.keys (observables_required q))
              "E"%string = 1 /\
    (In "E"%string (OrderedDict.keys (observables p)) ->
     OrderedDict.keys (observables q) = OrderedDict.keys (observables p)).
Proof.
  split; [simpl; tauto|]. split; [split; reflexivity|].
  exact (proj2 (proj2 (C8_last_write_wins nat Example.extract true
           [Call_add_observable "E" "p[0].e" true;
            Call_add_lhe_sample "a.lhe";
            Call_add_observable "pt1" "p[1].pt" false;
            Call_analyse_lhe_samples;
            Call_add_observable "E" "p[0].pt" false]%string "E"%string))).
Defined.

(** C10.  Start from the constructor and make any calls, going on after a
    call that raised.  The two registries then have the same keys in the
    same order.  A call of [analyse_lhe_samples], whether it returns or
    raises, leaves the list of file names and both registries as they
    were. *)
Theorem C10_registries_aligned
    (val : Type)
    (extract : string -> OrderedDict.t string -> OrderedDict.t bool ->
               exn + dataset val) :
  (forall (debug : bool) (cs : list call),
     let p : LHEProcessor val :=
       fst (session extract cs (__init__ debug, [])) in
     OrderedDict.keys (observables p)
     = OrderedDict.keys (observables_required p))
  /\
  (forall (w : world val),
     let p' := fst (snd (analyse_lhe_samples extract w)) in
     lhe_sample_filenames p' = lhe_sample_filenames (fst w) /\
     observables p' = observables (fst w) /\
     observables_required p' = observables_required (fst w)).
Proof.
  split.
  - intros debug cs.
    now destruct (session_keys extract cs (__init__ debug, [])
                    eq_refl eq_refl).
  - apply analyse_lhe_samples_registration.
Qed.

(** * Further properties of the class *)

(** ** The registrations as a function of the calls *)
Section CallFacts.

Context {val : Type}.
Variable extract : string -> OrderedDict.t string -> OrderedDict.t bool ->
                   exn + dataset val.

Implicit Types (w : world val) (cs : list call).

Lemma filter_twice {A : Type} (f g h : A -> bool) (l : list A) :
  (forall x, h x = g x && f x) ->
  filter f (filter g l) = filter h l.
Proof.
  intros E. induction l as [|x l IH]; simpl; [reflexivity|].
  rewrite E. destruct (g x); simpl; [|exact IH].
  destruct (f x); now rewrite IH.
Qed.

Lemma mem_app_one (m n : string) (K : list string) :
  OrderedDict.mem m (K ++ [n]) = OrderedDict.mem m K || String.eqb m n.
Proof.
  induction K as [|k K IH]; simpl; [now rewrite orb_false_r|].
  now rewrite IH, orb_assoc.
Qed.

(** What one call does to the list of file names. *)
Lemma perform_filenames (c : call) w :
  lhe_sample_filenames (fst (snd (perform extract c w))) =
  match c with
  | Call_add_lhe_sample filename =>
      lhe_sample_filenames (fst w) ++ [filename]
  | _ => lhe_sample_filenames (fst w)
  end.
Proof.
  destruct c as [filename|name definition required|]; simpl.
  - reflexivity.
  - now rewrite add_observable_self.
  - apply analyse_lhe_samples_registration.
Qed.

Lemma session_filenames cs w :
  lhe_sample_filenames (fst (session extract cs w))
  = lhe_sample_filenames (fst w) ++ registered_filenames cs.
Proof.
  revert w. induction cs as [|c cs IH]; intros w; simpl.
  - now rewrite app_nil_r.
  - rewrite IH, perform_filenames.
    destruct c; simpl; [now rewrite <- app_assoc | reflexivity..].
Qed.

Lemma session_key_order cs w :
  let K := OrderedDict.keys (observables (fst w)) in
  OrderedDict.keys (observables (fst (session extract cs w))) =
  K ++ filter (fun m => negb (OrderedDict.mem m K))
              (first_occurrences (registered_names cs)).
Proof.
  revert w. induction cs as [|c cs IH]; intros w; simpl.
  - now rewrite app_nil_r.
  - rewrite IH. clear IH.
    pose proof (perform_registries extract c w) as H. simpl in H.
    destruct c as [filename|n definition required|];
      destruct H as [H _]; rewrite H; try reflexivity.
    unfold registered_names. simpl.
    fold (registered_names cs).
    set (X := first_occurrences (registered_names cs)).
    set (K := OrderedDict.keys (observables (fst w))).
    rewrite OrderedDictFacts.keys_set. fold K.
    destruct (OrderedDict.mem n K) eqn:E; simpl.
    + f_equal. symmetry. apply filter_twice. intros x.
      destruct (String.eqb_spec x n) as [->|]; simpl; [now rewrite E|].
      reflexivity.
    + rewrite <- app_assoc. simpl. do 2 f_equal. symmetry.
      apply filter_twice. intros x. rewrite mem_app_one.
      destruct (OrderedDict.mem x K), (String.eqb x n); reflexivity.
Qed.

End CallFacts.

(** X1.  After any calls from the constructor, the list of file names is
    the file names given to [add_lhe_sample], in call order and with
    repetitions; the calls of [add_observable] and the runs, returning or
    raising, leave no trace in it. *)
Theorem X1_filenames_are_the_calls
    (val : Type)
    (extract : string -> OrderedDict.t string -> OrderedDict.t bool ->
               exn + dataset val)
    (debug : bool) (cs : list call) :
  lhe_sample_filenames (fst (session extract cs (__init__ debug, [])))
  = registered_filenames cs.
Proof. now rewrite session_filenames. Qed.

(** X2.  After any calls from the constructor, the keys of both registries
    are the names given to [add_observable] in the order of their first
    registration: a name registered again keeps the place it had. *)
Theorem X2_registry_key_order
    (val : Type)
    (extract : string -> OrderedDict.t string -> OrderedDict.t bool ->
               exn + dataset val)
    (debug : bool) (cs : list call) :
  let p : LHEProcessor val := fst (session extract cs (__init__ debug, [])) in
  OrderedDict.keys (observables p) = first_occurrences (registered_names cs)
  /\
  OrderedDict.keys (observables_required p)
  = first_occurrences (registered_names cs).
Proof.
  simpl.
  destruct (session_keys extract cs (__init__ debug, []) eq_refl eq_refl)
    as [Hk _].
  simpl in Hk. rewrite <- Hk.
  pose proof (session_key_order extract cs (__init__ debug, [])) as H.
  simpl in H. rewrite H.
  split; apply filter_true.
Qed.

(** ** The states a caller can reach *)
Section ReachFacts.

Context {val : Type}.
Variable extract : string -> OrderedDict.t string -> OrderedDict.t bool ->
                   exn + dataset val.

Implicit Types (w : world val) (cs : list call) (f : string).

(** Everything one pass through the loop body can raise, and what it leaves
    of [paired]. *)
Lemma analysing_paired f w :
  paired (fst w) ->
  paired (fst (snd (analyse_lhe_sample extract f w))) /\
  forall e, fst (analyse_lhe_sample extract f w) = inl e ->
            sample extract (fst w) f = inl e \/
            is_ConsistencyError e = true \/ is_AssertionError e = true.
Proof.
  destruct w as [p log]. unfold paired. simpl. intros Hp.
  pose proof (analysing_outcome extract p log f) as H. simpl in H.
  destruct (sample extract p f) as [e0|this].
  { rewrite H. simpl. split; [exact Hp|]. intros e E. left. congruence. }
  destruct (weights p) as [w|] eqn:Hw, (observations p) as [o|] eqn:Ho;
    try (exfalso; destruct Hp as [H1 H2];
         solve [discriminate (H1 eq_refl) | discriminate (H2 eq_refl)]).
  - destruct (shape0 w =? shape0 (snd this)).
    + destruct (OrderedDict.len o =? OrderedDict.len (fst this)).
      * destruct H as (o' & _ & H). rewrite H. simpl.
        split; [split; discriminate|].
        intros e E.
        destruct (first_missing (fst this) (OrderedDict.keys o));
          inversion E. right. right. reflexivity.
      * rewrite H. simpl. rewrite Ho, Hw.
        split; [split; discriminate|].
        intros e E. inversion E. right. left. reflexivity.
    + rewrite H. simpl. rewrite Ho, Hw.
      split; [split; discriminate|].
      intros e E. inversion E. right. left. reflexivity.
  - rewrite H. simpl. split; [split; discriminate | discriminate].
Qed.

Lemma running_paired (files : list string) w :
  paired (fst w) -> paired (fst (snd (analyse_loop extract files w))).
Proof.
  revert w. induction files as [|f files IH]; intros w Hp; [exact Hp|].
  unfold analyse_loop. simpl. unfold bind.
  destruct (analysing_paired f w Hp) as [Hp' _].
  destruct (analyse_lhe_sample extract f w) as [[e|[]] w1];
    [exact Hp' | now apply IH].
Qed.

Lemma session_paired cs w :
  paired (fst w) -> paired (fst (session extract cs w)).
Proof.
  revert w. induction cs as [|c cs IH]; intros w Hp; [exact Hp|].
  simpl. apply IH.
  destruct c as [filename|name definition required|]; simpl.
  - exact Hp.
  - rewrite add_observable_self. exact Hp.
  - rewrite analyse_lhe_samples_loop. now apply running_paired.
Qed.

End ReachFacts.

(** X3.  After any calls from the constructor, going on after a call that
    raised, [observations] and [weights] are both [None] or both set, so the
    test of line 91 never meets one without the other.  A run started then
    raises nothing of its own but the two ValueErrors of lines 97 and 101 and
    the AssertionError of line 108: any other exception is one the
    extraction of a registered file raised; no attribute of [None] is read,
    no key is looked up that is not there, and [np.hstack] is never given
    arrays that do not fit. *)
Theorem X3_what_a_run_raises
    (val : Type)
    (extract : string -> OrderedDict.t string -> OrderedDict.t bool ->
               exn + dataset val)
    (debug : bool) (cs : list call) :
  let w := session extract cs (__init__ debug, []) in
  paired (fst w) /\
  (forall (e : exn) (w' : world val),
     analyse_lhe_samples extract w = (inl e, w') ->
     (exists f, In f (lhe_sample_filenames (fst w)) /\
                sample extract (fst w) f = inl e) \/
     is_ConsistencyError e = true \/ is_AssertionError e = true).
Proof.
  simpl.
  assert (Hp : paired (fst (session extract cs (__init__ debug, [])))).
  { apply session_paired. split; reflexivity. }
  split; [exact Hp|].
  intros e w' Hrun.
  set (w := session extract cs (__init__ debug, [])) in *.
  rewrite analyse_lhe_samples_loop in Hrun.
  apply running_raise_inv in Hrun as (pre & f & post & w1 & Hf & Hpre & Hs).
  assert (Hp1 : paired (fst w1)).
  { pose proof (running_paired extract pre w Hp) as H.
    now rewrite Hpre in H. }
  destruct (analysing_paired extract f w1 Hp1) as [_ H].
  specialize (H e). rewrite Hs in H. specialize (H eq_refl).
  destruct H as [H|H]; [left | right; exact H].
  exists f. split.
  - rewrite Hf. apply in_or_app. right. now left.
  - pose proof (running_sample extract pre w f) as E.
    rewrite Hpre in E. simpl in E. now rewrite <- E.
Qed.

Lemma X3_witness :
  paired (fst (session Example.extract
                 [Call_add_observable "E" "p[0].e" true;
                  Call_add_observable "pt1" "p[1].pt" false;
                  Call_add_lhe_sample "a.lhe";
                  Call_analyse_lhe_samples;
                  Call_add_lhe_sample "e.lhe"]%string
                 (__init__ false, []))) /\
  observations (fst (session Example.extract
                 [Call_add_observable "E" "p[0].e" true;
                  Call_add_observable "pt1" "p[1].pt" false;
                  Call_add_lhe_sample "a.lhe";
                  Call_analyse_lhe_samples;
                  Call_add_lhe_sample "e.lhe"]%string
                 (__init__ false, [])))
  = Some (fst Example.sample_a) /\
  fst (analyse_lhe_samples Example.extract
         (session Example.extract
                 [Call_add_observable "E" "p[0].e" true;
                  Call_add_observable "pt1" "p[1].pt" false;
                  Call_add_lhe_sample "a.lhe";
                  Call_analyse_lhe_samples;
                  Call_add_lhe_sample "e.lhe"]%string
                 (__init__ false, [])))
  = inl (AssertionError "pt1") /\
  ((exists f,
      In f ["a.lhe"; "e.lhe"]%string /\
      sample Example.extract
        (fst (Example.registered ["a.lhe"; "e.lhe"]%string)) f
      = inl (AssertionError "pt1")) \/
   is_ConsistencyError (AssertionError "pt1") = true \/
   is_AssertionError (AssertionError "pt1") = true).
Proof.
  split; [|split; [reflexivity | split; [reflexivity|]]].
  - exact (proj1 (X3_what_a_run_raises nat Example.extract false
             [Call_add_observable "E" "p[0].e" true;
              Call_add_observable "pt1" "p[1].pt" false;
              Call_add_lhe_sample "a.lhe";
              Call_analyse_lhe_samples;
              Call_add_lhe_sample "e.lhe"]%string)).
  - apply (proj2 (X3_what_a_run_raises nat Example.extract false
             [Call_add_observable "E" "p[0].e" true;
              Call_add_observable "pt1" "p[1].pt" false;
              Call_add_lhe_sample "a.lhe";
              Call_analyse_lhe_samples;
              Call_add_lhe_sample "e.lhe"]%string)
           (AssertionError "pt1")
           (snd (analyse_lhe_samples Example.extract
              (session Example.extract
                 [Call_add_observable "E" "p[0].e" true;
                  Call_add_observable "pt1" "p[1].pt" false;
                  Call_add_lhe_sample "a.lhe";
                  Call_analyse_lhe_samples;
                  Call_add_lhe_sample "e.lhe"]%string
                 (__init__ false, [])))));
      reflexivity.
Defined.

(** ** A held Dataset only grows *)
Section GrowFacts.

Context {val : Type}.
Variable extract : string -> OrderedDict.t string -> OrderedDict.t bool ->
                   exn + dataset val.

Implicit Types (d : dataset val) (o this : table val) (f : string).

Lemma extends_refl d : extends d d.
Proof.
  repeat split; auto.
  - intros k c H. exists []. now rewrite app_nil_r.
  - intros i. exists []. now rewrite app_nil_r.
Qed.

Lemma extends_trans d1 d2 d3 : extends d1 d2 -> extends d2 d3 -> extends d1 d3.
Proof.
  intros (K1 & V1 & E1 & C1 & S1) (K2 & V2 & E2 & C2 & S2).
  repeat split; try congruence; try lia.
  - intros k c H. destruct (C1 k c H) as (m1 & H1).
    destruct (C2 k _ H1) as (m2 & H2).
    exists (m1 ++ m2). now rewrite app_assoc.
  - intros i. destruct (S1 i) as (m1 & H1), (S2 i) as (m2 & H2).
    exists (m1 ++ m2). now rewrite H2, H1, app_assoc.
Qed.

(** The column loop, completed or stopped, keeps the keys and only appends
    to columns; the table need not be a dict for that. *)
Lemma merge_columns_grow this (ks : list string) fs obs req o ws log :
  incl ks (OrderedDict.keys o) ->
  exists o',
    OrderedDict.keys o' = OrderedDict.keys o /\
    (forall k c, OrderedDict.get k o = Some c ->
       exists more, OrderedDict.get k o' = Some (c ++ more)) /\
    snd (for_each ks (merge_column this)
           (mk_LHEProcessor fs obs req (Some o) ws, log)) =
    (mk_LHEProcessor fs obs req (Some o') ws, log).
Proof.
  revert o. induction ks as [|k ks IH]; intros o Hin.
  - exists o. repeat split; auto.
    intros k c H. exists []. now rewrite app_nil_r.
  - assert (Hk : In k (OrderedDict.keys o)) by (apply Hin; now left).
    assert (Hks : incl ks (OrderedDict.keys o))
      by (intros x Hx; apply Hin; now right).
    destruct (OrderedDict.get k o) as [c|] eqn:Ho;
      [|apply OrderedDictFacts.get_None in Ho; contradiction].
    simpl. unfold bind.
    destruct (OrderedDict.get k this) as [c'|] eqn:Ht.
    + rewrite (merge_column_present _ _ _ _ _ _ _ _ c c') by easy.
      destruct (IH (OrderedDict.set k (hstack1 c c') o)) as (o' & Hkeys & Hcol & Hrun).
      { now rewrite OrderedDictFacts.keys_set_present. }
      exists o'. repeat split.
      * now rewrite Hkeys, OrderedDictFacts.keys_set_present.
      * intros k2 c2 H2.
        destruct (String.eqb_spec k k2) as [<-|Hne].
        -- rewrite Ho in H2. inversion H2; subst c2.
           destruct (Hcol k (hstack1 c c')) as (more & Hm).
           { apply OrderedDictFacts.get_set_same. }
           exists (c' ++ more). rewrite Hm. unfold hstack1.
           now rewrite app_assoc.
        -- apply Hcol. now rewrite OrderedDictFacts.get_set_other.
      * exact Hrun.
    + rewrite merge_column_missing by assumption.
      exists o. repeat split; auto.
      intros k2 c2 H2. exists []. now rewrite app_nil_r.
Qed.

(** One pass through the loop body on a held Dataset. *)
Lemma analysing_grows f p log o w :
  observations p = Some o -> weights p = Some w ->
  exists o' w',
    observations (fst (snd (analyse_lhe_sample extract f (p, log)))) = Some o'
    /\ weights (fst (snd (analyse_lhe_sample extract f (p, log)))) = Some w'
    /\ extends (o, w) (o', w').
Proof.
  intros Ho Hw.
  pose proof (analysing_outcome extract p log f) as H. simpl in H.
  assert (Hsame : forall e,
    analyse_lhe_sample extract f (p, log)
    = (inl e, (p, log ++ [Analysing_LHE_sample f])) ->
    exists o' w',
      observations (fst (snd (analyse_lhe_sample extract f (p, log))))
      = Some o'
      /\ weights (fst (snd (analyse_lhe_sample extract f (p, log))))
         = Some w'
      /\ extends (o, w) (o', w')).
  { intros e E. rewrite E. simpl. exists o, w.
    repeat split; auto; apply extends_refl. }
  destruct (sample extract p f) as [e0|this] eqn:Hs; [now apply (Hsame e0)|].
  rewrite Hw, Ho in H.
  destruct (Nat.eqb_spec (shape0 w) (shape0 (snd this))) as [E1|E1];
    [|eapply Hsame; exact H].
  destruct (Nat.eqb_spec (OrderedDict.len o) (OrderedDict.len (fst this)))
    as [E2|E2]; [|eapply Hsame; exact H].
  clear H Hsame.
  rewrite (analysing_columns extract p log f this o w) by assumption.
  destruct p as [fs obs req oo ow]. simpl in Ho, Hw. subst oo ow.
  destruct (merge_columns_grow (fst this) (OrderedDict.keys o) fs obs req o
              (Some (snd (stack (o, w) this)))
              (log ++ [Analysing_LHE_sample f]) (incl_refl _))
    as (o' & Hkeys & Hcol & Hrun).
  unfold set_weights. simpl. simpl in Hrun. rewrite Hrun. simpl.
  exists o'. eexists. split; [reflexivity|]. split; [reflexivity|].
  repeat split; simpl.
  - exact Hkeys.
  - unfold weight_variations, shape0. simpl.
    now apply NumpyFacts.length_zip_app.
  - unfold events, shape1. simpl. lia.
  - exact Hcol.
  - intros i. exists (nth i (slices (snd this)) []).
    now apply NumpyFacts.nth_zip_app.
Qed.

Lemma running_grows (files : list string) p log o w :
  observations p = Some o -> weights p = Some w ->
  exists o' w',
    observations (fst (snd (analyse_loop extract files (p, log)))) = Some o'
    /\ weights (fst (snd (analyse_loop extract files (p, log)))) = Some w'
    /\ extends (o, w) (o', w').
Proof.
  revert p log o w. induction files as [|f files IH]; intros p log o w Ho Hw.
  - exists o, w. simpl. repeat split; auto; apply extends_refl.
  - destruct (analysing_grows f p log o w Ho Hw) as (o1 & w1 & Ho1 & Hw1 & E1).
    unfold analyse_loop. simpl. unfold bind.
    destruct (analyse_lhe_sample extract f (p, log)) as [[e|[]] [p1 log1]].
    + exists o1, w1. split; [exact Ho1 | split; [exact Hw1 | exact E1]].
    + simpl in Ho1, Hw1.
      destruct (IH p1 log1 o1 w1 Ho1 Hw1) as (o2 & w2 & Ho2 & Hw2 & E2).
      exists o2, w2. split; [exact Ho2 | split; [exact Hw2|]].
      now apply extends_trans with (d2 := (o1, w1)).
Qed.

End GrowFacts.

(** X4.  Once the object holds a Dataset, a call of [analyse_lhe_samples]
    only appends to it, whether the call returns or raises and whatever the
    samples are: afterwards the object holds a Dataset with the same keys in
    the same order and the same number of weight variations, in which every
    column and every weight slice begins with what it held before; no event
    is removed or changed. *)
Theorem X4_held_dataset_only_grows
    (val : Type)
    (extract : string -> OrderedDict.t string -> OrderedDict.t bool ->
               exn + dataset val)
    (p : LHEProcessor val) (log : list log_record)
    (o : table val) (w : array2 val) :
  observations p = Some o ->
  weights p = Some w ->
  exists o' w',
    observations (fst (snd (analyse_lhe_samples extract (p, log)))) = Some o'
    /\ weights (fst (snd (analyse_lhe_samples extract (p, log)))) = Some w'
    /\ extends (o, w) (o', w').
Proof.
  intros Ho Hw. rewrite analyse_lhe_samples_loop.
  now apply running_grows.
Qed.

Lemma X4_witness :
  exists o' w',
    observations
      (fst (snd (analyse_lhe_samples Example.extract
                   (snd (analyse_lhe_samples Example.extract
                           (Example.registered
                              ["a.lhe"; "e.lhe"]%string)))))) = Some o'
    /\ weights
         (fst (snd (analyse_lhe_samples Example.extract
                      (snd (analyse_lhe_samples Example.extract
                              (Example.registered
                                 ["a.lhe"; "e.lhe"]%string)))))) = Some w'
    /\ extends ([("E", [10; 11; 50]); ("pt1", [1; 2])]%string,
                {| axis1 := 3; slices := [[5; 6; 4]] |}) (o', w').
Proof.
  apply (X4_held_dataset_only_grows nat Example.extract
           (fst (snd (analyse_lhe_samples Example.extract
                        (Example.registered ["a.lhe"; "e.lhe"]%string))))
           (snd (snd (analyse_lhe_samples Example.extract
                        (Example.registered ["a.lhe"; "e.lhe"]%string))))
           [("E", [10; 11; 50]); ("pt1", [1; 2])]%string
           {| axis1 := 3; slices := [[5; 6; 4]] |});
    reflexivity.
Defined.

(** ** The run stopped by the assertion *)
Section AssertionFacts.

Context {val : Type}.
Implicit Types (o this : table val) (k : string).

(** On a dict, the column loop has stacked the columns before the first key
    the new sample lacks, and no other. *)
Lemma merge_columns_while this fs obs req (o1 o2 : table val) ws log :
  NoDup (OrderedDict.keys (o1 ++ o2)) ->
  for_each (OrderedDict.keys o2) (merge_column this)
           (mk_LHEProcessor fs obs req (Some (o1 ++ o2)) ws, log) =
  (match first_missing this (OrderedDict.keys o2) with
   | None => inr tt
   | Some k => inl (AssertionError k)
   end,
   (mk_LHEProcessor fs obs req (Some (o1 ++ stacked_while this o2)) ws,
    log)).
Proof.
  revert o1. induction o2 as [|[k c] o2 IH]; intros o1 Hnd.
  - reflexivity.
  - assert (Hfresh : ~ In k (OrderedDict.keys o1)).
    { unfold OrderedDict.keys in *. rewrite map_app in Hnd. simpl in Hnd.
      apply NoDup_remove_2 in Hnd. rewrite in_app_iff in Hnd. tauto. }
    unfold first_missing. simpl. unfold OrderedDict.contains at 1.
    unfold bind.
    destruct (OrderedDict.get k this) as [c'|] eqn:Ht; simpl.
    + rewrite (merge_column_present _ _ _ _ _ _ _ _ c c');
        [|now apply OrderedDictFacts.get_middle | assumption].
      rewrite OrderedDictFacts.set_middle by assumption.
      replace (o1 ++ (k, hstack1 c c') :: o2)
        with ((o1 ++ [(k, hstack1 c c')]) ++ o2)
        by now rewrite <- app_assoc.
      rewrite IH.
      * now rewrite <- app_assoc.
      * unfold OrderedDict.keys in *. rewrite <- app_assoc. simpl.
        rewrite !map_app in *. simpl in *. exact Hnd.
    + now rewrite merge_column_missing.
Qed.

(** The column of the first missing key is in the table as it was. *)
Lemma stacked_while_keeps this o k :
  first_missing this (OrderedDict.keys o) = Some k ->
  exists c, In (k, c) o /\ In (k, c) (stacked_while this o).
Proof.
  unfold first_missing.
  induction o as [|[k' c'] o IH]; simpl; [discriminate|].
  unfold OrderedDict.contains at 1.
  destruct (OrderedDict.get k' this) as [x|]; simpl.
  - intros H. destruct (IH H) as (c & H1 & H2). exists c. auto.
  - intros H. inversion H; subst. exists c'. simpl. auto.
Qed.

End AssertionFacts.

(** X5.  A run reaches sample [f] after the samples before it were merged
    into a table that is a dict.  Let the sample have the merged number of
    weight variations and of keys, but lack a merged key, [k0] being the
    first such key.  The run then raises the AssertionError on [k0] after
    the weights were stacked (line 105) and the columns of the keys before
    [k0] too: the object is left with the sample's events in its weights and
    in those columns, and without them in the column of [k0] and the columns
    after it.  If the merged Dataset had the shape invariant and the sample
    has an event, what is left does not have it. *)
Theorem X5_assertion_leaves_half_merged
    (val : Type)
    (extract : string -> OrderedDict.t string -> OrderedDict.t bool ->
               exn + dataset val)
    (p p1 : LHEProcessor val) (log log1 : list log_record)
    (pre post : list string) (f : string)
    (o : table val) (w : array2 val) (this : dataset val) (k0 : string) :
  lhe_sample_filenames p = pre ++ f :: post ->
  analyse_loop extract pre (p, log) = (inr tt, (p1, log1)) ->
  observations p1 = Some o ->
  weights p1 = Some w ->
  OrderedDict.wf o = true ->
  sample extract p f = inr this ->
  weight_variations w = weight_variations (snd this) ->
  OrderedDict.len o = OrderedDict.len (fst this) ->
  first_missing (fst this) (OrderedDict.keys o) = Some k0 ->
  analyse_lhe_samples extract (p, log) =
  (inl (AssertionError k0),
   (holding (stacked_while (fst this) o, snd (stack (o, w) this)) p1,
    log1 ++ [Analysing_LHE_sample f]))
  /\
  (shape_invariant (o, w) = true ->
   0 < events (snd this) ->
   shape_invariant (stacked_while (fst this) o, snd (stack (o, w) this))
   = false).
Proof.
  intros Hfiles Hpre Ho Hw Hwf Hs Hv Hl Hk. split.
  - rewrite analyse_lhe_samples_loop. simpl. rewrite Hfiles.
    apply running_stops with (w1 := (p1, log1)); [assumption|].
    assert (Hs1 : sample extract p1 f = inr this).
    { pose proof (running_sample extract pre (p, log) f) as E.
      rewrite Hpre in E. simpl in E. now rewrite E. }
    rewrite (analysing_columns extract p1 log1 f this o w) by assumption.
    destruct p1 as [fs obs req oo ow]. simpl in Ho, Hw. subst oo ow.
    apply OrderedDictFacts.distinct_NoDup in Hwf.
    pose proof (merge_columns_while (fst this) fs obs req [] o
                  (Some (snd (stack (o, w) this)))
                  (log1 ++ [Analysing_LHE_sample f]) Hwf) as H.
    rewrite Hk in H. exact H.
  - intros Hinv Hev.
    destruct (stacked_while_keeps (fst this) o k0 Hk) as (c & Hin & Hin').
    unfold shape_invariant in *. simpl in *.
    rewrite forallb_forall in Hinv. apply Hinv in Hin. simpl in Hin.
    apply Nat.eqb_eq in Hin.
    match goal with |- ?b = false => destruct b eqn:E; [|reflexivity] end.
    rewrite forallb_forall in E. apply E in Hin'. simpl in Hin'.
    apply Nat.eqb_eq in Hin'. unfold events, shape1 in *. simpl in *. lia.
Qed.

Lemma X5_witness :
  analyse_lhe_samples Example.extract
    (Example.registered ["a.lhe"; "e.lhe"]%string) =
  (inl (AssertionError "pt1"),
   (holding ([("E", [10; 11; 50]); ("pt1", [1; 2])]%string,
             {| axis1 := 3; slices := [[5; 6; 4]] |})
      (fst (Example.registered ["a.lhe"; "e.lhe"]%string)),
    snd (Example.registered ["a.lhe"; "e.lhe"]%string)
    ++ [Analysing_LHE_sample "a.lhe"; Analysing_LHE_sample "e.lhe"]%string))
  /\
  (shape_invariant Example.sample_a = true ->
   0 < events (snd Example.sample_e) ->
   shape_invariant ([("E", [10; 11; 50]); ("pt1", [1; 2])]%string,
                    {| axis1 := 3; slices := [[5; 6; 4]] |}) = false).
Proof.
  apply (X5_assertion_leaves_half_merged nat Example.extract
           (fst (Example.registered ["a.lhe"; "e.lhe"]%string))
           (holding Example.sample_a
              (fst (Example.registered ["a.lhe"; "e.lhe"]%string)))
           (snd (Example.registered ["a.lhe"; "e.lhe"]%string))
           (snd (Example.registered ["a.lhe"; "e.lhe"]%string)
            ++ [Analysing_LHE_sample "a.lhe"]%string)
           ["a.lhe"%string] [] "e.lhe"%string
           (fst Example.sample_a) (snd Example.sample_a) Example.sample_e
           "pt1"%string);
    reflexivity.
Defined.

(** X6.  A run on an object that already holds a Dataset (its table a dict)
    and that returns has put every registered sample after what was held:
    each column is the held column followed by the samples' columns in the
    order of the file names, each weight slice likewise, and the event count
    is the held one plus the samples'.  Files that were registered and merged
    before are in the list still, so they are merged again. *)
Theorem X6_run_appends_to_held_dataset
    (val : Type)
    (extract : string -> OrderedDict.t string -> OrderedDict.t bool ->
               exn + dataset val)
    (p p' : LHEProcessor val) (log log' : list log_record)
    (o : table val) (w : array2 val) :
  observations p = Some o ->
  weights p = Some w ->
  OrderedDict.wf o = true ->
  analyse_lhe_samples extract (p, log) = (inr tt, (p', log')) ->
  exists o' w',
    observations p' = Some o' /\ weights p' = Some w' /\
    OrderedDict.keys o' = OrderedDict.keys o /\
    (forall k, In k (OrderedDict.keys o) ->
       OrderedDict.get k o' =
       Some (column k o
             ++ concat (map (sample_column extract p k)
                            (lhe_sample_filenames p)))) /\
    (forall i,
       nth i (slices w') [] =
       nth i (slices w) []
       ++ concat (map (sample_slice extract p i) (lhe_sample_filenames p))) /\
    events w' = events w
                + list_sum (map (sample_events extract p)
                                (lhe_sample_filenames p)).
Proof.
  intros Ho Hw Hwf. rewrite analyse_lhe_samples_loop. simpl. intros Hrun.
  destruct (running_returns extract _ p log (o, w) _ Ho Hw Hwf Hrun)
    as (ds & Hex & Hc).
  rewrite (running_compatible extract _ ds p log (o, w)) in Hrun
    by assumption.
  inversion Hrun; subst p' log'. clear Hrun.
  exists (fst (fold_left stack ds (o, w))), (snd (fold_left stack ds (o, w))).
  split; [reflexivity|]. split; [reflexivity|].
  split; [now rewrite keys_fold_stack|].
  split; [|split].
  - intros k Hk. rewrite column_fold_stack by assumption.
    now rewrite (extracts_columns extract p _ ds k Hex).
  - intros i. rewrite slice_fold_stack by assumption.
    now rewrite (extracts_slices extract p _ ds i Hex).
  - rewrite events_fold_stack.
    now rewrite (extracts_events extract p _ ds Hex).
Qed.

Lemma X6_witness :
  let w0 :=
    session Example.extract
      [Call_add_observable "E" "p[0].e" true;
       Call_add_observable "pt1" "p[1].pt" false;
       Call_add_lhe_sample "a.lhe";
       Call_analyse_lhe_samples;
       Call_add_lhe_sample "b.lhe"]%string
      (__init__ false, []) in
  let w1 := snd (analyse_lhe_samples Example.extract w0) in
  exists o' w',
    observations (fst w1) = Some o' /\ weights (fst w1) = Some w' /\
    OrderedDict.keys o' = ["E"; "pt1"]%string /\
    (forall k, In k ["E"; "pt1"]%string ->
       OrderedDict.get k o' =
       Some (column k (fst Example.sample_a)
             ++ concat (map (sample_column Example.extract (fst w0) k)
                            ["a.lhe"; "b.lhe"]%string))) /\
    (forall i,
       nth i (slices w') [] =
       nth i (slices (snd Example.sample_a)) []
       ++ concat (map (sample_slice Example.extract (fst w0) i)
                      ["a.lhe"; "b.lhe"]%string)) /\
    events w' = 2 + 5.
Proof.
  apply (X6_run_appends_to_held_dataset nat Example.extract
           (fst (session Example.extract
                   [Call_add_observable "E" "p[0].e" true;
                    Call_add_observable "pt1" "p[1].pt" false;
                    Call_add_lhe_sample "a.lhe";
                    Call_analyse_lhe_samples;
                    Call_add_lhe_sample "b.lhe"]%string
                   (__init__ false, [])))
           (fst (snd (analyse_lhe_samples Example.extract
             (session Example.extract
                   [Call_add_observable "E" "p[0].e" true;
                    Call_add_observable "pt1" "p[1].pt" false;
                    Call_add_lhe_sample "a.lhe";
                    Call_analyse_lhe_samples;
                    Call_add_lhe_sample "b.lhe"]%string
                   (__init__ false, [])))))
           (snd (session Example.extract
                   [Call_add_observable "E" "p[0].e" true;
                    Call_add_observable "pt1" "p[1].pt" false;
                    Call_add_lhe_sample "a.lhe";
                    Call_analyse_lhe_samples;
                    Call_add_lhe_sample "b.lhe"]%string
                   (__init__ false, [])))
           (snd (snd (analyse_lhe_samples Example.extract
             (session Example.extract
                   [Call_add_observable "E" "p[0].e" true;
                    Call_add_observable "pt1" "p[1].pt" false;
                    Call_add_lhe_sample "a.lhe";
                    Call_analyse_lhe_samples;
                    Call_add_lhe_sample "b.lhe"]%string
                   (__init__ false, [])))))
           (fst Example.sample_a) (snd Example.sample_a));
    reflexivity.
Defined.

(** ** When a run returns *)
Section ReturnFacts.

Context {val : Type}.
Variable extract : string -> OrderedDict.t string -> OrderedDict.t bool ->
                   exn + dataset val.

Implicit Types (p : LHEProcessor val) (d x : dataset val).

Lemma length_keys {V : Type} (t : OrderedDict.t V) :
  length (OrderedDict.keys t) = OrderedDict.len t.
Proof. apply length_map. Qed.

(** Between dicts, passing both checks and the assertions is having the
    same layout. *)
Lemma compatible_same_layout d x :
  OrderedDict.wf (fst d) = true -> OrderedDict.wf (fst x) = true ->
  compatible d x = true <-> same_layout d x.
Proof.
  unfold OrderedDict.wf. rewrite !OrderedDictFacts.distinct_NoDup.
  intros Hd Hx. unfold compatible, same_layout, weight_variations.
  rewrite !andb_true_iff, !Nat.eqb_eq, forallb_forall.
  split.
  - intros [[Hs Hl] Hall].
    assert (Hincl : incl (OrderedDict.keys (fst d))
                         (OrderedDict.keys (fst x))).
    { intros k Hk. apply OrderedDictFacts.contains_In. now apply Hall. }
    repeat split; [congruence | exact Hincl |].
    apply NoDup_length_incl; [assumption | | assumption].
    rewrite !length_keys. lia.
  - intros (Hs & H1 & H2). repeat split.
    + congruence.
    + rewrite <- !length_keys. apply Nat.le_antisymm;
        now apply NoDup_incl_length.
    + intros k Hk. apply OrderedDictFacts.contains_In. now apply H1.
Qed.

Lemma extracts_In p (files : list string) (ds : list (dataset val)) g :
  Forall2 (fun f d => sample extract p f = inr d) files ds ->
  In g files -> exists x, In x ds /\ sample extract p g = inr x.
Proof.
  induction 1 as [|f d files ds Hf Hex IH]; simpl; [tauto|].
  intros [<-|Hg].
  - exists d. auto.
  - destruct (IH Hg) as (x & Hx & Hs). exists x. auto.
Qed.

Lemma extracts_build p (files : list string) (P : dataset val -> Prop) :
  (forall g, In g files -> exists x, sample extract p g = inr x /\ P x) ->
  exists ds, Forall2 (fun f d => sample extract p f = inr d) files ds /\
             Forall P ds.
Proof.
  induction files as [|f files IH]; intros H.
  - exists []. split; constructor.
  - destruct (H f (or_introl eq_refl)) as (x & Hx & Px).
    destruct IH as (ds & Hex & HP); [intros g Hg; apply H; now right|].
    exists (x :: ds). split; constructor; assumption.
Qed.

Lemma samples_dicts p (files : list string) g x :
  samples_well_formed extract p files ->
  In g files -> sample extract p g = inr x ->
  OrderedDict.wf (fst x) = true.
Proof.
  intros Hwf Hg Hx. specialize (Hwf g x Hg Hx).
  now apply andb_true_iff in Hwf as [Hwf _].
Qed.

(** A run that returns saw samples of the first sample's layout. *)
Lemma fresh_returns_layout p log first (others : list string) (w' : world val) :
  nothing_merged p ->
  samples_well_formed extract p (first :: others) ->
  analyse_loop extract (first :: others) (p, log) = (inr tt, w') ->
  exists d,
    sample extract p first = inr d /\
    forall g, In g others ->
      exists x, sample extract p g = inr x /\ same_layout d x.
Proof.
  intros Hfresh Hwf Hrun.
  destruct (running_fresh extract first others p log w' Hfresh Hwf Hrun)
    as (d & ds & Hd & Hex & Hc & _).
  exists d. split; [exact Hd|].
  intros g Hg.
  destruct (extracts_In p others ds g Hex Hg) as (x & Hx & Hs).
  exists x. split; [exact Hs|].
  apply compatible_same_layout.
  - apply (samples_dicts p _ first d Hwf); simpl; auto.
  - apply (samples_dicts p _ g x Hwf); simpl; auto.
  - rewrite forallb_forall in Hc. now apply Hc.
Qed.

(** Samples of the first sample's layout make the run return. *)
Lemma layout_returns_fresh p log first (others : list string) d :
  nothing_merged p ->
  samples_well_formed extract p (first :: others) ->
  sample extract p first = inr d ->
  (forall g, In g others ->
     exists x, sample extract p g = inr x /\ same_layout d x) ->
  exists w', analyse_loop extract (first :: others) (p, log) = (inr tt, w').
Proof.
  intros [Ho Hw] Hwf Hd Hall.
  destruct (extracts_build p others (fun x => compatible d x = true))
    as (ds & Hex & Hc).
  { intros g Hg. destruct (Hall g Hg) as (x & Hx & Hlay).
    exists x. split; [exact Hx|].
    apply compatible_same_layout; [| |exact Hlay].
    - apply (samples_dicts p _ first d Hwf); simpl; auto.
    - apply (samples_dicts p _ g x Hwf); simpl; auto. }
  eexists. unfold analyse_loop. simpl. unfold bind.
  rewrite (analysing_first extract p log first d Ho Hw Hd).
  apply (running_compatible extract others ds
           (set_weights (Some (snd d)) (set_observations (Some (fst d)) p))
           _ d eq_refl eq_refl).
  - apply (samples_dicts p _ first d Hwf); simpl; auto.
  - exact Hex.
  - apply forallb_forall. rewrite Forall_forall in Hc. exact Hc.
Qed.

End ReturnFacts.

(** X7.  Take an object on which nothing is merged, with at least one file
    name registered and the samples' tables dicts.  The run returns exactly
    when every registered file extracts and every sample after the first has
    the first sample's number of weight variations and the first sample's set
    of keys.  The order of the keys in a later sample does not matter, nor do
    the registered observable names. *)
Theorem X7_when_a_run_returns
    (val : Type)
    (extract : string -> OrderedDict.t string -> OrderedDict.t bool ->
               exn + dataset val)
    (p : LHEProcessor val) (log : list log_record)
    (first : string) (others : list string) :
  nothing_merged p ->
  lhe_sample_filenames p = first :: others ->
  samples_well_formed extract p (first :: others) ->
  (exists w', analyse_lhe_samples extract (p, log) = (inr tt, w'))
  <->
  (exists d,
     sample extract p first = inr d /\
     forall g, In g others ->
       exists x, sample extract p g = inr x /\ same_layout d x).
Proof.
  intros Hfresh Hfiles Hwf. rewrite analyse_lhe_samples_loop. simpl.
  rewrite Hfiles. split.
  - intros (w' & Hrun).
    now apply (fresh_returns_layout extract p log first others w').
  - intros (d & Hd & Hall).
    now apply (layout_returns_fresh extract p log first others d).
Qed.

Lemma X7_witness :
  (exists w',
     analyse_lhe_samples Example.extract
       (Example.registered ["a.lhe"; "b.lhe"; "a.lhe"]%string)
     = (inr tt, w'))
  <->
  (exists d,
     sample Example.extract
       (fst (Example.registered ["a.lhe"; "b.lhe"; "a.lhe"]%string))
       "a.lhe"%string = inr d /\
     forall g, In g ["b.lhe"; "a.lhe"]%string ->
       exists x,
         sample Example.extract
           (fst (Example.registered ["a.lhe"; "b.lhe"; "a.lhe"]%string)) g
         = inr x /\ same_layout d x).
Proof.
  apply (X7_when_a_run_returns nat Example.extract
           (fst (Example.registered ["a.lhe"; "b.lhe"; "a.lhe"]%string))
           (snd (Example.registered ["a.lhe"; "b.lhe"; "a.lhe"]%string))
           "a.lhe"%string ["b.lhe"; "a.lhe"]%string).
  - split; reflexivity.
  - reflexivity.
  - intros f d [<-|[<-|[<-|[]]]] H; inversion H; reflexivity.
Defined.

(** ** Calling again after a run that raised *)
Section RetryFacts.

Context {val : Type}.
Variable extract : string -> OrderedDict.t string -> OrderedDict.t bool ->
                   exn + dataset val.

Implicit Types (q : LHEProcessor val) (log : list log_record) (f : string).



End RetryFacts.



(** ** The order of the file names *)

Section OrderFacts.

Context {val : Type}.
Implicit Types (d x y : dataset val).

Lemma same_layout_refl d : same_layout d d.
Proof. repeat split; apply incl_refl. Qed.

Lemma same_layout_sym d x : same_layout d x -> same_layout x d.
Proof. intros (H1 & H2 & H3). repeat split; auto. Qed.

Lemma same_layout_trans d x y :
  same_layout d x -> same_layout x y -> same_layout d y.
Proof.
  intros (H1 & H2 & H3) (G1 & G2 & G3). repeat split.
  - congruence.
  - now apply incl_tran with (m := OrderedDict.keys (fst x)).
  - now apply incl_tran with (m := OrderedDict.keys (fst x)).
Qed.

Lemma concat_map_permutation {A B : Type} (g : A -> list B) (l l' : list A) :
  Permutation l l' -> Permutation (concat (map g l)) (concat (map g l')).
Proof.
  intros H. rewrite <- !flat_map_concat_map. now apply Permutation_flat_map.
Qed.

Lemma list_sum_map_permutation {A : Type} (g : A -> nat) (l l' : list A) :
  Permutation l l' -> list_sum (map g l) = list_sum (map g l').
Proof.
  intros H. apply Permutation_list_sum. now apply Permutation_map.
Qed.

End OrderFacts.

(** X9.  Take a run that returns, from an object on which nothing is merged,
    the samples' tables being dicts and the extraction a function of the
    file name and the registries.  With the same file names registered in
    another order the run returns too.  The two merged Datasets have the
    same keys (in the order of whichever sample came first), the same number
    of weight variations and the same number of events, and each column and
    each weight slice of the one is a rearrangement of that of the other:
    the order of the files decides where the events are, not which. *)
Theorem X9_file_order_rearranges_events
    (val : Type)
    (extract : string -> OrderedDict.t string -> OrderedDict.t bool ->
               exn + dataset val)
    (p p1 : LHEProcessor val) (log log1 : list log_record)
    (reordered : list string) :
  nothing_merged p ->
  samples_well_formed extract p (lhe_sample_filenames p) ->
  Permutation (lhe_sample_filenames p) reordered ->
  analyse_lhe_samples extract (p, log) = (inr tt, (p1, log1)) ->
  exists p2 log2,
    analyse_lhe_samples extract (set_lhe_sample_filenames reordered p, log)
    = (inr tt, (p2, log2)) /\
    (forall o1 w1, merged p1 = Some (o1, w1) ->
       exists o2 w2,
         merged p2 = Some (o2, w2) /\
         Permutation (OrderedDict.keys o1) (OrderedDict.keys o2) /\
         (forall k c1, OrderedDict.get k o1 = Some c1 ->
            exists c2, OrderedDict.get k o2 = Some c2 /\
                       Permutation c1 c2) /\
         weight_variations w2 = weight_variations w1 /\
         events w2 = events w1 /\
         (forall i, Permutation (nth i (slices w1) [])
                                (nth i (slices w2) []))).
Proof.
  intros Hfresh Hwf Hperm Hrun.
  rewrite analyse_lhe_samples_loop in Hrun. simpl in Hrun.
  rewrite analyse_lhe_samples_loop. simpl fst.
  change (lhe_sample_filenames (set_lhe_sample_filenames reordered p))
    with reordered.
  set (p' := set_lhe_sample_filenames reordered p).
  destruct (lhe_sample_filenames p) as [|f others] eqn:Hfiles.
  - apply Permutation_nil in Hperm. subst reordered.
    inversion Hrun; subst p1 log1.
    exists p', log. split; [reflexivity|].
    intros o1 w1 H. destruct Hfresh as [Ho _]. unfold merged in H.
    rewrite Ho in H. discriminate.
  - destruct reordered as [|f' others'];
      [apply Permutation_sym, Permutation_nil in Hperm; discriminate|].
    destruct (running_fresh extract f others p log _ Hfresh Hwf Hrun)
      as (d & ds & Hd & Hex & Hc & E).
    inversion E; subst p1 log1. clear E.
    destruct (fresh_returns_layout extract p log f others _ Hfresh Hwf Hrun)
      as (d0 & Hd0 & Hlay).
    rewrite Hd in Hd0. inversion Hd0; subst d0. clear Hd0.
    assert (Hall : forall g, In g (f :: others) ->
              exists x, sample extract p g = inr x /\ same_layout d x).
    { intros g [<-|Hg]; [|now apply Hlay].
      exists d. split; [exact Hd | apply same_layout_refl]. }
    destruct (Hall f') as (d' & Hd' & Hdd').
    { apply Permutation_in with (l := f' :: others');
        [now apply Permutation_sym | now left]. }
    assert (Hfresh' : nothing_merged p') by exact Hfresh.
    assert (Hwf' : samples_well_formed extract p' (f' :: others')).
    { intros g x Hg Hx. apply (Hwf g x); [|exact Hx].
      apply Permutation_in with (l := f' :: others');
        [now apply Permutation_sym | exact Hg]. }
    assert (Hlay' : forall g, In g others' ->
              exists x, sample extract p' g = inr x /\ same_layout d' x).
    { intros g Hg. destruct (Hall g) as (x & Hx & Hdx).
      - apply Permutation_in with (l := f' :: others');
          [now apply Permutation_sym | now right].
      - exists x. split; [exact Hx|].
        apply same_layout_trans with (x := d);
          [now apply same_layout_sym | exact Hdx]. }
    destruct (layout_returns_fresh extract p' log f' others' d'
                Hfresh' Hwf' Hd' Hlay') as (w2 & Hrun').
    destruct (running_fresh extract f' others' p' log _ Hfresh' Hwf' Hrun')
      as (d2 & ds' & Hd2 & Hex' & Hc' & E').
    assert (d2 = d') by (change (sample extract p f' = inr d2) in Hd2;
                         congruence).
    subst d2 w2.
    set (D := fold_left stack ds d) in *.
    set (D' := fold_left stack ds' d') in *.
    destruct (fresh_fold_contents extract p f others d ds Hd Hex Hc)
      as (K1 & C1 & S1 & E1).
    destruct (fresh_fold_contents extract p' f' others' d' ds' Hd' Hex' Hc')
      as (K2 & C2 & S2 & E2).
    fold D in K1, C1, S1, E1. fold D' in K2, C2, S2, E2.
    unfold sample_keys in K1, K2. rewrite Hd in K1.
    change (sample extract p' f') with (sample extract p f') in K2.
    rewrite Hd' in K2.
    exists (holding D' p'). eexists. split; [exact Hrun'|].
    intros o1 w1 H. inversion H; subst o1 w1. clear H.
    exists (fst D'), (snd D'). split; [reflexivity|].
    destruct Hdd' as (Hv & Hin1 & Hin2).
    split; [|split; [|split; [|split]]].
    + rewrite K1, K2. apply NoDup_Permutation.
      * apply OrderedDictFacts.distinct_NoDup.
        apply (samples_dicts extract p _ f d Hwf); simpl; auto.
      * apply OrderedDictFacts.distinct_NoDup.
        apply (samples_dicts extract p' _ f' d' Hwf'); simpl; auto.
      * intros k. split; [apply Hin1 | apply Hin2].
    + intros k c1 Hk.
      assert (Hk1 : In k (OrderedDict.keys (fst D)))
        by now apply OrderedDictFacts.get_Some_In in Hk.
      pose proof (C1 k Hk1) as Hc1. rewrite Hk in Hc1.
      injection Hc1 as ->.
      assert (Hk2 : In k (OrderedDict.keys (fst D'))).
      { rewrite K2. apply Hin1. now rewrite <- K1. }
      eexists. split; [exact (C2 k Hk2)|].
      exact (concat_map_permutation (sample_column extract p k) _ _ Hperm).
    + unfold weight_variations in *. unfold D, D'.
      rewrite !shape0_fold_stack by assumption. exact Hv.
    + rewrite E1, E2. symmetry.
      exact (list_sum_map_permutation (sample_events extract p) _ _ Hperm).
    + intros i. rewrite S1, S2.
      exact (concat_map_permutation (sample_slice extract p i) _ _ Hperm).
Qed.

Lemma X9_witness :
  let w := Example.registered ["a.lhe"; "b.lhe"]%string in
  exists p2 log2,
    analyse_lhe_samples Example.extract
      (set_lhe_sample_filenames ["b.lhe"; "a.lhe"]%string (fst w), snd w)
    = (inr tt, (p2, log2)) /\
    (forall o1 w1,
       merged (fst (snd (analyse_lhe_samples Example.extract w)))
       = Some (o1, w1) ->
       exists o2 w2,
         merged p2 = Some (o2, w2) /\
         Permutation (OrderedDict.keys o1) (OrderedDict.keys o2) /\
         (forall k c1, OrderedDict.get k o1 = Some c1 ->
            exists c2, OrderedDict.get k o2 = Some c2 /\
                       Permutation c1 c2) /\
         weight_variations w2 = weight_variations w1 /\
         events w2 = events w1 /\
         (forall i, Permutation (nth i (slices w1) [])
                                (nth i (slices w2) []))).
Proof.
  apply (X9_file_order_rearranges_events nat Example.extract
           (fst (Example.registered ["a.lhe"; "b.lhe"]%string))
           (fst (snd (analyse_lhe_samples Example.extract
                        (Example.registered ["a.lhe"; "b.lhe"]%string))))
           (snd (Example.registered ["a.lhe"; "b.lhe"]%string))
           (snd (snd (analyse_lhe_samples Example.extract
                        (Example.registered ["a.lhe"; "b.lhe"]%string))))
           ["b.lhe"; "a.lhe"]%string).
  - split; reflexivity.
  - intros f d [<-|[<-|[]]] H; inversion H; reflexivity.
  - apply perm_swap.
  - reflexivity.
Defined.
